(** * Wikidata fetcher: cache-aware resolver, dependency extractor and
      claim normalizer of [wikidata.py], as a shallow embedding.

    The local data directory is a finite map from identifiers to the
    documents stored under them, the remote API is a function from the
    identifiers of one request to its answer, and every function of the
    script that touches either of them is a computation over the state
    (cache, log of requests) that may raise. *)

From stdpp Require Import gmap strings pretty list fin_maps.

(** ** Module-level constants *)

Definition LANGUAGE : string := "en".
Definition WIKIBASE_ITEM_DATA_TYPE : string := "wikibase-item".
Definition WIKIBASE_API_MAX_IDS : nat := 50.
Definition INTERESTING_DATA_TYPES : list string :=
  ["time"; "quantity"; "string"; WIKIBASE_ITEM_DATA_TYPE].

(** ** Data model *)

(** The Python values the normalizer reads and returns: [None], a [str],
    or a JSON object.  Only string-valued fields of an object are ever
    read by the script ("id", "amount", "time"). *)
Inductive pyval :=
  | PNone
  | PStr (s : string)
  | PDict (fields : list (string * string)).

(** A snak.  [datavalue] is the content of [snak["datavalue"]["value"]];
    it is [None] when the snak has no "datavalue" key. *)
Record Snak := {
  property : string;
  datatype : string;
  snaktype : string;
  datavalue : option pyval }.

(** A statement: [qualifiers] and [qualifiers_order] are the optional
    keys "qualifiers" and "qualifiers-order"; a dict is kept as the list
    of its items in iteration order. *)
Record Statement := {
  mainsnak : Snak;
  qualifiers : option (list (string * list Snak));
  qualifiers_order : option (list string) }.

(** An entity document: the keys "id", "labels" and "claims". *)
Record EntityDoc := {
  e_id : string;
  e_labels : gmap string (gmap string string);
  e_claims : list (string * list Statement) }.

(** [DATA_DIRECTORY] (one file [<id>.json] per key, kept as the document
    that the file decodes to) and the requests sent so far, oldest first;
    a request is the list joined into its "ids" parameter. *)
Record state := {
  cache : gmap string EntityDoc;
  requests : list (list string) }.

Inductive error :=
  | KeyError (key : string)
  | TypeError
  | IndexError
  | FileNotFoundError (name : string)
  | RequestError (ids : list string).

(** ** Computations that read and write the state and may raise.
    An exception keeps the effects that happened before it. *)

Inductive result (A : Type) :=
  | Ok (a : A)
  | Err (e : error).
Arguments Ok {A} a.
Arguments Err {A} e.

Definition M (A : Type) : Type := state → result A * state.

Definition ret {A} (a : A) : M A := λ st, (Ok a, st).
Definition raise {A} (e : error) : M A := λ st, (Err e, st).
Definition bind {A B} (c : M A) (k : A → M B) : M B :=
  λ st, match c st with
        | (Ok a, st1) => k a st1
        | (Err e, st1) => (Err e, st1)
        end.

Notation "x <- c1 ;; c2" := (bind c1 (λ x, c2))
  (at level 100, c1 at next level, right associativity).

Definition lift {A} (r : result A) : M A := λ st, (r, st).

(** Pure computations that may raise (no state). *)
Definition rbind {A B} (r : result A) (k : A → result B) : result B :=
  match r with Ok a => k a | Err e => Err e end.

(** ** Python built-ins used by the script *)

(** [range(start, stop, step)] for a positive step. *)
Fixpoint range_aux (fuel ii stop step : nat) : list nat :=
  match fuel with
  | O => []
  | S fuel' =>
      if decide (ii < stop) then ii :: range_aux fuel' (ii + step) stop step
      else []
  end.
Definition range (start stop step : nat) : list nat :=
  range_aux stop start stop step.

(** [l[lo:hi]] for non-negative bounds. *)
Definition slice {A} (l : list A) (lo hi : nat) : list A :=
  take (hi - lo) (drop lo l).

(** A dict kept as its item list: [d[key]] and [d.values()]. *)
Fixpoint dict_get {V} (d : list (string * V)) (key : string) : option V :=
  match d with
  | [] => None
  | (k, v) :: d' => if decide (k = key) then Some v else dict_get d' key
  end.
Definition dict_values {V} (d : list (string * V)) : list V := map snd d.

(** [value[key]] on a Python value. *)
Definition subscript (value : pyval) (key : string) : result string :=
  match value with
  | PDict fields =>
      match dict_get fields key with
      | Some v => Ok v
      | None => Err (KeyError key)
      end
  | _ => Err TypeError
  end.

(** An [itertools.chain] object: it holds its arguments and iterates none
    of them until it is itself iterated. *)
Record chain_object (A : Type) := itertools_chain { chain_pending : list A }.
Arguments itertools_chain {A} _.
Arguments chain_pending {A} _.

(** A call whose arguments are a starred generator expression over [xs]
    with body [g x]: building the argument tuple of the call exhausts
    the generator, running [g] on every element in order; an exception
    from [g] propagates. *)
Fixpoint star_args {A B} (g : A → M B) (xs : list A) : M (list B) :=
  match xs with
  | [] => ret []
  | x :: xs' =>
      v <- g x ;;
      vs <- star_args g xs' ;;
      ret (v :: vs)
  end.

(** ** What a file holds: [json.load] of [json.dump(..., sort_keys=True)]

    The document is written with the items of every dict in the order of
    their keys (strings compare by code point), and is read back in the
    order of the file.  Lists keep their order. *)

(** [item] put before the first item of [d] whose key is not smaller. *)
Fixpoint insert_item {V} (k : string) (v : V) (d : list (string * V))
    : list (string * V) :=
  match d with
  | [] => [(k, v)]
  | (k', v') :: d' =>
      if String.leb k k' then (k, v) :: (k', v') :: d'
      else (k', v') :: insert_item k v d'
  end.

(** [sorted(d.items())] *)
Fixpoint sort_keys {V} (d : list (string * V)) : list (string * V) :=
  match d with
  | [] => []
  | (k, v) :: d' => insert_item k v (sort_keys d')
  end.

(** The items of a dict with each value encoded by [f], in key order. *)
Definition dump_dict {V} (f : V → V) (d : list (string * V)) : list (string * V) :=
  sort_keys (map (λ item, (item.1, f item.2)) d).

Definition dump_value (value : pyval) : pyval :=
  match value with
  | PDict fields => PDict (sort_keys fields)
  | _ => value
  end.

Definition dump_snak (snak : Snak) : Snak :=
  {| property := property snak;
     datatype := datatype snak;
     snaktype := snaktype snak;
     datavalue := dump_value <$> datavalue snak |}.

Definition dump_statement (claim : Statement) : Statement :=
  {| mainsnak := dump_snak (mainsnak claim);
     qualifiers := dump_dict (map dump_snak) <$> qualifiers claim;
     qualifiers_order := qualifiers_order claim |}.

(** The document that the file written for [entity] decodes to. *)
Definition json_dump_load (entity : EntityDoc) : EntityDoc :=
  {| e_id := e_id entity;
     e_labels := e_labels entity;
     e_claims := dump_dict (map dump_statement) (e_claims entity) |}.

(** ** [get_entities] *)

Section Resolver.

(** The answer of the API to one request: the entities of its "entities"
    field, or [None] when the request or the decoding of its answer
    raises. *)
Variable remote : list string → option (list EntityDoc).

Fixpoint store_entites_locally (entities : list EntityDoc) : M unit :=
  match entities with
  | [] => ret tt
  | entity :: rest =>
      λ st, store_entites_locally rest
              {| cache := <[e_id entity := json_dump_load entity]> (cache st);
                 requests := requests st |}
  end.

Definition fetch_batch (ids : list string) : M unit :=
  λ st,
    let st1 := {| cache := cache st; requests := requests st ++ [ids] |} in
    match remote ids with
    | Some entities => store_entites_locally entities st1
    | None => (Err (RequestError ids), st1)
    end.

Definition batches {A} (ids : list A) : list (list A) :=
  map (λ ii, slice ids ii (ii + WIKIBASE_API_MAX_IDS))
      (range 0 (length ids) WIKIBASE_API_MAX_IDS).

Fixpoint get_non_local_ids_loop (c : gmap string EntityDoc)
    (ids non_local_ids : list string) : list string :=
  match ids with
  | [] => non_local_ids
  | id :: rest =>
      match c !! id with
      | None => get_non_local_ids_loop c rest (non_local_ids ++ [id])
      | Some _ => get_non_local_ids_loop c rest non_local_ids
      end
  end.
Definition get_non_local_ids (ids : list string) : M (list string) :=
  λ st, (Ok (get_non_local_ids_loop (cache st) ids []), st).

Fixpoint get_local_entities_loop (ids : list string)
    (entities : list EntityDoc) : M (list EntityDoc) :=
  match ids with
  | [] => ret entities
  | id :: rest =>
      λ st, match cache st !! id with
            | Some entity => get_local_entities_loop rest (entities ++ [entity]) st
            | None => (Err (FileNotFoundError id), st)
            end
  end.
Definition get_local_entities (ids : list string) : M (list EntityDoc) :=
  get_local_entities_loop ids [].

(** The effects of [get_entities] up to the read-back. *)
Definition fetch_missing (ids : list string) : M (chain_object unit) :=
  nonlocal_ids <- get_non_local_ids ids ;;
  args <- star_args fetch_batch (batches nonlocal_ids) ;;
  ret (itertools_chain args).

Definition get_entities (ids : list string) : M (list EntityDoc) :=
  _chain <- fetch_missing ids ;;
  entities <- get_local_entities ids ;;
  ret entities.

End Resolver.

(** ** [class Entity] *)

(** [snak["datavalue"]["value"]] *)
Definition datavalue_value (snak : Snak) : result pyval :=
  match datavalue snak with
  | Some value => Ok value
  | None => Err (KeyError "datavalue")
  end.

(** A label read with [.get] is a [str] or [None]. *)
Definition of_optional (o : option string) : pyval :=
  match o with
  | Some s => PStr s
  | None => PNone
  end.

(** The tuples yielded by [claims]: [(property, value)] or
    [(property, value, qualifiers)]. *)
Inductive claim_tuple :=
  | Pair (p v : pyval)
  | Triple (p v : pyval) (qs : list (pyval * pyval)).

(** The body of the qualifier loop of [load_dependencies]. *)
Fixpoint load_dependencies_qualifiers (qs : list Snak)
    (dependencies : list string) : result (list string) :=
  match qs with
  | [] => Ok dependencies
  | qualifier :: rest =>
      if decide (snaktype qualifier ≠ "value")
      then load_dependencies_qualifiers rest dependencies
      else
        let dependencies := dependencies ++ [property qualifier] in
        if decide (datatype qualifier = WIKIBASE_ITEM_DATA_TYPE)
        then rbind (datavalue_value qualifier) (λ value,
             rbind (subscript value "id") (λ i,
             load_dependencies_qualifiers rest (dependencies ++ [i])))
        else load_dependencies_qualifiers rest dependencies
  end.

(** One iteration of [for claim in properties]. *)
Definition load_dependencies_claim (claim : Statement)
    (dependencies : list string) : result (list string) :=
  let snak := mainsnak claim in
  let data_type := datatype snak in
  if decide (data_type ∉ INTERESTING_DATA_TYPES)
  then Ok dependencies
  else
    let dependencies := dependencies ++ [property snak] in
    rbind (if decide (data_type = WIKIBASE_ITEM_DATA_TYPE)
           then rbind (datavalue_value snak) (λ value,
                rbind (subscript value "id") (λ i, Ok (dependencies ++ [i])))
           else Ok dependencies) (λ dependencies,
    let qs := concat (dict_values (default [] (qualifiers claim))) in
    load_dependencies_qualifiers qs dependencies).

Fixpoint load_dependencies_properties (properties : list Statement)
    (dependencies : list string) : result (list string) :=
  match properties with
  | [] => Ok dependencies
  | claim :: rest =>
      rbind (load_dependencies_claim claim dependencies)
            (load_dependencies_properties rest)
  end.

Fixpoint load_dependencies_groups (groups : list (list Statement))
    (dependencies : list string) : result (list string) :=
  match groups with
  | [] => Ok dependencies
  | properties :: rest =>
      rbind (load_dependencies_properties properties dependencies)
            (load_dependencies_groups rest)
  end.

(** The list [dependencies] when the loops of [load_dependencies] end. *)
Definition dependencies_of (data : EntityDoc) : result (list string) :=
  load_dependencies_groups (dict_values (e_claims data)) [].

(** [Entity.label] *)
Definition label (data : EntityDoc) : option string :=
  default ∅ (e_labels data !! LANGUAGE) !! "value".

Section Entity.

Variable remote : list string → option (list EntityDoc).

Definition load_entity (entity_id : string) : M EntityDoc :=
  entities <- get_entities remote [entity_id] ;;
  match entities with
  | entity :: _ => ret entity
  | [] => raise IndexError
  end.

Definition load_dependencies (data : EntityDoc) : M unit :=
  dependencies <- lift (dependencies_of data) ;;
  _ <- get_entities remote dependencies ;;
  ret tt.

(** [Entity(entity_id, deep)]; the object is its attribute [data]. *)
Definition Entity (entity_id : string) (deep : bool) : M EntityDoc :=
  data <- load_entity entity_id ;;
  if deep then (_ <- load_dependencies data ;; ret data) else ret data.

Definition parse_snak (snak : Snak) : M (option (pyval * pyval)) :=
  let data_type := datatype snak in
  if decide (data_type ∉ INTERESTING_DATA_TYPES) then ret None
  else if decide (snaktype snak ≠ "value") then ret None
  else
    property_entity <- Entity (property snak) false ;;
    let property_label := of_optional (label property_entity) in
    value <- lift (datavalue_value snak) ;;
    value <- (if decide (data_type = WIKIBASE_ITEM_DATA_TYPE) then
                i <- lift (subscript value "id") ;;
                item <- Entity i false ;;
                ret (of_optional (label item))
              else if decide (data_type = "amount") then
                amount <- lift (subscript value "amount") ;;
                ret (PStr amount)
              else if decide (data_type = "time") then
                time <- lift (subscript value "time") ;;
                ret (PStr time)
              else ret value) ;;
    ret (Some (property_label, value)).

(** [for qualifier_snak in snaks] *)
Fixpoint claims_snaks (snaks : list Snak) (acc : list (pyval * pyval))
    : M (list (pyval * pyval)) :=
  match snaks with
  | [] => ret acc
  | qualifier_snak :: rest =>
      qualifier <- parse_snak qualifier_snak ;;
      match qualifier with
      | Some q => claims_snaks rest (acc ++ [q])
      | None => claims_snaks rest acc
      end
  end.

(** [for qualifier_id in claim.get("qualifiers-order", [])] *)
Fixpoint claims_qualifier_ids (claim : Statement) (ids : list string)
    (acc : list (pyval * pyval)) : M (list (pyval * pyval)) :=
  match ids with
  | [] => ret acc
  | qualifier_id :: rest =>
      match qualifiers claim with
      | None => raise (KeyError "qualifiers")
      | Some d =>
          match dict_get d qualifier_id with
          | None => raise (KeyError qualifier_id)
          | Some snaks =>
              acc <- claims_snaks snaks acc ;;
              claims_qualifier_ids claim rest acc
          end
      end
  end.

(** One iteration of [for claim in claims]: what it yields, if anything. *)
Definition claims_claim (claim : Statement) : M (option claim_tuple) :=
  snak <- parse_snak (mainsnak claim) ;;
  match snak with
  | None => ret None
  | Some (p, v) =>
      qs <- claims_qualifier_ids claim (default [] (qualifiers_order claim)) [] ;;
      match qs with
      | [] => ret (Some (Pair p v))
      | _ :: _ => ret (Some (Triple p v qs))
      end
  end.

Fixpoint claims_loop (cl : list Statement) (yielded : list claim_tuple)
    : M (list claim_tuple) :=
  match cl with
  | [] => ret yielded
  | claim :: rest =>
      y <- claims_claim claim ;;
      match y with
      | Some t => claims_loop rest (yielded ++ [t])
      | None => claims_loop rest yielded
      end
  end.

(** [Entity.claims], iterated to its end: the tuples in yield order. *)
Definition claims (data : EntityDoc) : M (list claim_tuple) :=
  claims_loop (concat (dict_values (e_claims data))) [].

End Entity.

(** ** The call stack of a run

    The same functions once more, with the frames of the call stack made
    explicit.  A computation returns, besides its outcome and the state
    that it leaves, how deep the stack grew below the frame that runs it
    and how many times a frame was pushed, counting the frames of the
    functions of the script only: a call pushes a frame, and so does the
    resumption of a generator. *)

Module Stack.

Record frames := { peak : nat; calls : nat }.

Definition T (A : Type) : Type := state → (result A * state) * frames.

Definition ret {A} (a : A) : T A :=
  λ st, ((Ok a, st), {| peak := 0; calls := 0 |}).

Definition bind {A B} (c : T A) (k : A → T B) : T B :=
  λ st, match c st with
        | ((Ok a, st1), m1) =>
            let '(out, m2) := k a st1 in
            (out, {| peak := peak m1 `max` peak m2;
                     calls := calls m1 + calls m2 |})
        | ((Err e, st1), m1) => ((Err e, st1), m1)
        end.

Declare Scope stack_scope.
Notation "x <- c1 ;; c2" := (bind c1 (λ x, c2))
  (at level 100, c1 at next level, right associativity) : stack_scope.
Local Open Scope stack_scope.

(** Statements that call no function of the script. *)
Definition straight {A} (c : M A) : T A :=
  λ st, (c st, {| peak := 0; calls := 0 |}).

(** A call, or the resumption of a generator: the body runs in a frame
    of its own, on top of the caller's. *)
Definition call {A} (body : T A) : T A :=
  λ st, let '(out, m) := body st in
        (out, {| peak := S (peak m); calls := S (calls m) |}).

(** A [yield] of the generator that is being run: its frame leaves the
    stack and is pushed again when the consumer asks for the next item. *)
Definition yield : T unit :=
  λ st, ((Ok tt, st), {| peak := 0; calls := 1 |}).

Section Frames.

Variable remote : list string → option (list EntityDoc).

Definition store_entites_locally (entities : list EntityDoc) : T unit :=
  call (straight (store_entites_locally entities)).

Definition fetch_batch (ids : list string) : T unit :=
  call (λ st,
    let st1 := {| cache := cache st; requests := requests st ++ [ids] |} in
    match remote ids with
    | Some entities => store_entites_locally entities st1
    | None => ((Err (RequestError ids), st1), {| peak := 0; calls := 0 |})
    end).

(** One resumption of the generator [batches]: it yields the next chunk
    or comes to its end. *)
Definition batches_next {A} (a : A) : T A := call (ret a).

(** The starred generator expression over [batches(nonlocal_ids)]: each
    resumption of its frame resumes [batches] and, when that yields a
    chunk, calls [fetch_batch] on it. *)
Fixpoint star_args (chunks : list (list string)) : T (list unit) :=
  match chunks with
  | [] => _ <- call (batches_next tt) ;; ret []
  | chunk :: rest =>
      v <- call (chunk <- batches_next chunk ;; fetch_batch chunk) ;;
      vs <- star_args rest ;;
      ret (v :: vs)
  end.

Definition get_non_local_ids (ids : list string) : T (list string) :=
  call (straight (get_non_local_ids ids)).

Definition get_local_entities (ids : list string) : T (list EntityDoc) :=
  call (straight (get_local_entities ids)).

Definition fetch_missing (ids : list string) : T (chain_object unit) :=
  nonlocal_ids <- get_non_local_ids ids ;;
  args <- star_args (batches nonlocal_ids) ;;
  ret (itertools_chain args).

Definition get_entities (ids : list string) : T (list EntityDoc) :=
  call (_chain <- fetch_missing ids ;;
        entities <- get_local_entities ids ;;
        ret entities).

Definition load_entity (entity_id : string) : T EntityDoc :=
  call (entities <- get_entities [entity_id] ;;
        match entities with
        | entity :: _ => ret entity
        | [] => straight (raise IndexError)
        end).

Definition load_dependencies (data : EntityDoc) : T unit :=
  call (dependencies <- straight (lift (dependencies_of data)) ;;
        _ <- get_entities dependencies ;;
        ret tt).

Definition Entity (entity_id : string) (deep : bool) : T EntityDoc :=
  call (data <- load_entity entity_id ;;
        if deep then (_ <- load_dependencies data ;; ret data) else ret data).

Definition label (data : EntityDoc) : T (option string) :=
  call (ret (label data)).

Definition parse_snak (snak : Snak) : T (option (pyval * pyval)) :=
  call (
    let data_type := datatype snak in
    if decide (data_type ∉ INTERESTING_DATA_TYPES) then ret None
    else if decide (snaktype snak ≠ "value") then ret None
    else
      property_entity <- Entity (property snak) false ;;
      property_label <- label property_entity ;;
      value <- straight (lift (datavalue_value snak)) ;;
      value <- (if decide (data_type = WIKIBASE_ITEM_DATA_TYPE) then
                  i <- straight (lift (subscript value "id")) ;;
                  item <- Entity i false ;;
                  item_label <- label item ;;
                  ret (of_optional item_label)
                else if decide (data_type = "amount") then
                  amount <- straight (lift (subscript value "amount")) ;;
                  ret (PStr amount)
                else if decide (data_type = "time") then
                  time <- straight (lift (subscript value "time")) ;;
                  ret (PStr time)
                else ret value) ;;
      ret (Some (of_optional property_label, value))).

Fixpoint claims_snaks (snaks : list Snak) (acc : list (pyval * pyval))
    : T (list (pyval * pyval)) :=
  match snaks with
  | [] => ret acc
  | qualifier_snak :: rest =>
      qualifier <- parse_snak qualifier_snak ;;
      match qualifier with
      | Some q => claims_snaks rest (acc ++ [q])
      | None => claims_snaks rest acc
      end
  end.

Fixpoint claims_qualifier_ids (claim : Statement) (ids : list string)
    (acc : list (pyval * pyval)) : T (list (pyval * pyval)) :=
  match ids with
  | [] => ret acc
  | qualifier_id :: rest =>
      match qualifiers claim with
      | None => straight (raise (KeyError "qualifiers"))
      | Some d =>
          match dict_get d qualifier_id with
          | None => straight (raise (KeyError qualifier_id))
          | Some snaks =>
              acc <- claims_snaks snaks acc ;;
              claims_qualifier_ids claim rest acc
          end
      end
  end.

Definition claims_claim (claim : Statement) : T (option claim_tuple) :=
  snak <- parse_snak (mainsnak claim) ;;
  match snak with
  | None => ret None
  | Some (p, v) =>
      qs <- claims_qualifier_ids claim (default [] (qualifiers_order claim)) [] ;;
      match qs with
      | [] => ret (Some (Pair p v))
      | _ :: _ => ret (Some (Triple p v qs))
      end
  end.

Fixpoint claims_loop (cl : list Statement) (yielded : list claim_tuple)
    : T (list claim_tuple) :=
  match cl with
  | [] => ret yielded
  | claim :: rest =>
      y <- claims_claim claim ;;
      match y with
      | Some t => _ <- yield ;; claims_loop rest (yielded ++ [t])
      | None => claims_loop rest yielded
      end
  end.

(** [Entity.claims], iterated to its end by its consumer. *)
Definition claims (data : EntityDoc) : T (list claim_tuple) :=
  call (claims_loop (concat (dict_values (e_claims data))) []).

End Frames.

End Stack.

(** * Properties, measures and fixtures used by the statements *)

(** No identifier occurs in two different chunks. *)
Definition chunks_disjoint {A} (chunks : list (list A)) : Prop :=
  ∀ i j ci cj x,
    chunks !! i = Some ci → chunks !! j = Some cj →
    x ∈ ci → x ∈ cj → i = j.

(** The remote answers a request with a document for each identifier in it. *)
Definition serves (remote : list string → option (list EntityDoc))
    (chunk : list string) : Prop :=
  match remote chunk with
  | Some entities => Forall (λ x, x ∈ e_id <$> entities) chunk
  | None => False
  end.

#[global] Instance serves_dec remote chunk : Decision (serves remote chunk).
Proof. unfold serves. destruct (remote chunk); apply _. Defined.

(** The requested identifiers that have no file in the data directory. *)
Definition missing (st : state) (ids : list string) : list string :=
  filter (λ x, cache st !! x = None) ids.

(** ** Fixtures *)

Definition empty_state : state := {| cache := ∅; requests := [] |}.

(** A remote that knows the given documents and answers a request with
    those whose identifier is asked for. *)
Definition remote_of (docs : list EntityDoc) : list string → option (list EntityDoc) :=
  λ chunk, Some (filter (λ e, e_id e ∈ chunk) docs).

(** A remote that answers with a placeholder document for whatever is
    asked, once per identifier of the request. *)
Definition echo_remote : list string → option (list EntityDoc) :=
  λ chunk, Some (map (λ x, {| e_id := x; e_labels := ∅; e_claims := [] |}) chunk).

Definition labelled (i l : string) (cl : list (string * list Statement)) : EntityDoc :=
  {| e_id := i; e_labels := {[ LANGUAGE := {[ "value" := l ]} ]}; e_claims := cl |}.

Definition warm_state : state :=
  {| cache := {[ "Q5" := labelled "Q5" "human" [] ]}; requests := [] |}.

Definition three : list string := ["Q5"; "P31"; "Q5"].

(** A snak that [parse_snak] does not drop. *)
Definition displayable (snak : Snak) : Prop :=
  datatype snak ∈ INTERESTING_DATA_TYPES ∧ snaktype snak = "value".

#[global] Instance displayable_dec snak : Decision (displayable snak).
Proof. unfold displayable. apply _. Defined.

Definition external_id_snak : Snak :=
  {| property := "P214"; datatype := "external-id"; snaktype := "value";
     datavalue := Some (PStr "12345") |}.

Definition population_snak : Snak :=
  {| property := "P1082"; datatype := "quantity"; snaktype := "value";
     datavalue := Some (PDict [("amount", "+1380004385"); ("unit", "1")]) |}.

Definition instance_of_human : Snak :=
  {| property := "P31"; datatype := WIKIBASE_ITEM_DATA_TYPE; snaktype := "value";
     datavalue := Some (PDict [("entity-type", "item"); ("id", "Q5")]) |}.

Definition wikidata : list string → option (list EntityDoc) :=
  remote_of [labelled "P31" "instance of" []; labelled "Q5" "human" [];
             labelled "P1082" "population" []; labelled "P580" "start time" [];
             labelled "P39" "position held" [];
             labelled "Q192711" "Prime Minister of India" []].

(** The snaks that the qualifier loop of [claims] visits, in the order in
    which it visits them; [None] when a lookup of the loop fails. *)
Fixpoint ordered_snaks (d : option (list (string * list Snak)))
    (ids : list string) : option (list Snak) :=
  match ids with
  | [] => Some []
  | qualifier_id :: rest =>
      match d with
      | None => None
      | Some d' =>
          match dict_get d' qualifier_id, ordered_snaks d rest with
          | Some snaks, Some later => Some (snaks ++ later)
          | _, _ => None
          end
      end
  end.

(** [t] is what [parse_snak] returns for [snak] in some run. *)
Definition normalizes (remote : list string → option (list EntityDoc))
    (snak : Snak) (t : pyval * pyval) : Prop :=
  ∃ st st', parse_snak remote snak st = (Ok (Some t), st').

(** [t] is the tuple of the statement [claim]: its normalized mainsnak,
    followed by the list of its normalized qualifiers, in the order of
    "qualifiers-order", when that list is not empty; the qualifiers are
    normalized from the state in which the mainsnak's normalization ends. *)
Definition renders (remote : list string → option (list EntityDoc))
    (claim : Statement) (t : claim_tuple) : Prop :=
  ∃ p v snaks qs st0 st1 st2,
    parse_snak remote (mainsnak claim) st0 = (Ok (Some (p, v)), st1) ∧
    claims_qualifier_ids remote claim (default [] (qualifiers_order claim)) [] st1
      = (Ok qs, st2) ∧
    ordered_snaks (qualifiers claim) (default [] (qualifiers_order claim))
      = Some snaks ∧
    Forall2 (normalizes remote) (filter displayable snaks) qs ∧
    t = match qs with [] => Pair p v | _ :: _ => Triple p v qs end.

(** The tuple that [claims] yields for a mainsnak normalized to [(p, v)]
    and the list [qs] of normalized qualifiers: [qs] is its third
    component unless it is empty. *)
Definition tuple_of (p v : pyval) (qs : list (pyval * pyval)) : claim_tuple :=
  match qs with [] => Pair p v | _ :: _ => Triple p v qs end.

(** [normalized remote snaks st qs st']: [parse_snak], run on the snaks one
    after the other from the state [st], each run starting in the state
    that the one before left, drops some and returns [qs] for the others,
    in order, and leaves the state [st']. *)
Inductive normalized (remote : list string → option (list EntityDoc))
    : list Snak → state → list (pyval * pyval) → state → Prop :=
  | normalized_nil st : normalized remote [] st [] st
  | normalized_kept snak snaks st q st1 qs st2 :
      parse_snak remote snak st = (Ok (Some q), st1) →
      normalized remote snaks st1 qs st2 →
      normalized remote (snak :: snaks) st (q :: qs) st2
  | normalized_dropped snak snaks st st1 qs st2 :
      parse_snak remote snak st = (Ok None, st1) →
      normalized remote snaks st1 qs st2 →
      normalized remote (snak :: snaks) st qs st2.

(** [yields remote statements st out st']: from the state [st], statement
    after statement, the mainsnak is normalized first; a statement whose
    mainsnak is dropped gives nothing; for the others, the snaks that
    "qualifiers-order" names are normalized next, in that order, from the
    state that the mainsnak left, and the statement gives the tuple of
    its mainsnak and these qualifiers; the next statement starts in the
    state so reached. [out] is the tuples in order, [st'] the last state. *)
Inductive yields (remote : list string → option (list EntityDoc))
    : list Statement → state → list claim_tuple → state → Prop :=
  | yields_nil st : yields remote [] st [] st
  | yields_skipped claim rest st st1 out st2 :
      parse_snak remote (mainsnak claim) st = (Ok None, st1) →
      yields remote rest st1 out st2 →
      yields remote (claim :: rest) st out st2
  | yields_kept claim rest st p v st1 snaks qs st2 out st3 :
      parse_snak remote (mainsnak claim) st = (Ok (Some (p, v)), st1) →
      ordered_snaks (qualifiers claim) (default [] (qualifiers_order claim))
        = Some snaks →
      normalized remote snaks st1 qs st2 →
      yields remote rest st2 out st3 →
      yields remote (claim :: rest) st (tuple_of p v qs :: out) st3.

Definition start_time : Snak :=
  {| property := "P580"; datatype := "time"; snaktype := "value";
     datavalue := Some (PDict [("time", "+1947-08-15T00:00:00Z"); ("precision", "11")]) |}.

Definition end_time_unknown : Snak :=
  {| property := "P582"; datatype := "time"; snaktype := "somevalue";
     datavalue := None |}.

Definition position_held : Statement :=
  {| mainsnak := {| property := "P39"; datatype := WIKIBASE_ITEM_DATA_TYPE;
                    snaktype := "value";
                    datavalue := Some (PDict [("id", "Q192711")]) |};
     qualifiers := Some [("P582", [end_time_unknown]); ("P580", [start_time])];
     qualifiers_order := Some ["P580"; "P582"] |}.

Definition plain (snak : Snak) : Statement :=
  {| mainsnak := snak; qualifiers := None; qualifiers_order := None |}.

Definition nehru : EntityDoc :=
  labelled "Q1047" "Jawaharlal Nehru"
    [("P31", [plain instance_of_human]);
     ("P214", [plain external_id_snak]);
     ("P39", [position_held])].

(** The identifier that an item-valued snak refers to, when it has one. *)
Definition referenced_id (snak : Snak) : result string :=
  rbind (datavalue_value snak) (λ value, subscript value "id").

(** The identifiers that one snak contributes: its property and, for the
    item datatype, the identifier it refers to. *)
Definition snak_identifiers (snak : Snak) : list string :=
  property snak ::
  (if decide (datatype snak = WIKIBASE_ITEM_DATA_TYPE)
   then match referenced_id snak with Ok i => [i] | Err _ => [] end
   else []).

(** All qualifier snaks of a statement, in the iteration order of the
    "qualifiers" dict. *)
Definition qualifier_snaks (claim : Statement) : list Snak :=
  concat (dict_values (default [] (qualifiers claim))).

(** The identifiers that one statement contributes: nothing when the
    datatype of its mainsnak is not interesting. *)
Definition statement_dependencies (claim : Statement) : list string :=
  if decide (datatype (mainsnak claim) ∈ INTERESTING_DATA_TYPES)
  then snak_identifiers (mainsnak claim)
       ++ concat (map snak_identifiers
                    (filter (λ q, snaktype q = "value") (qualifier_snaks claim)))
  else [].

Definition document_dependencies (data : EntityDoc) : list string :=
  concat (map statement_dependencies (concat (dict_values (e_claims data)))).

(** An item-valued snak carries the identifier it refers to. *)
Definition has_reference (snak : Snak) : Prop :=
  datatype snak = WIKIBASE_ITEM_DATA_TYPE → ∃ i, referenced_id snak = Ok i.

(** Every snak that the extractor reads an identifier from has one. *)
Definition extractable (claim : Statement) : Prop :=
  datatype (mainsnak claim) ∈ INTERESTING_DATA_TYPES →
  has_reference (mainsnak claim) ∧
  Forall has_reference (filter (λ q, snaktype q = "value") (qualifier_snaks claim)).

(** The data model of a snak: one of the three snaktypes, and a datavalue
    exactly for "value". *)
Definition well_formed_snak (snak : Snak) : Prop :=
  snaktype snak ∈ ["value"; "novalue"; "somevalue"] ∧
  (snaktype snak = "value" ↔ is_Some (datavalue snak)).

Definition well_formed (data : EntityDoc) : Prop :=
  Forall (λ claim, well_formed_snak (mainsnak claim) ∧
                   Forall well_formed_snak (qualifier_snaks claim))
         (concat (dict_values (e_claims data))).

#[global] Instance well_formed_snak_dec snak : Decision (well_formed_snak snak).
Proof. unfold well_formed_snak. apply _. Defined.

#[global] Instance well_formed_dec data : Decision (well_formed data).
Proof. unfold well_formed. apply _. Defined.

Definition named_as : Snak :=
  {| property := "P1810"; datatype := "string"; snaktype := "value";
     datavalue := Some (PStr "Nehru, Jawaharlal") |}.

Definition viaf : Statement :=
  {| mainsnak := external_id_snak;
     qualifiers := Some [("P1810", [named_as])];
     qualifiers_order := Some ["P1810"] |}.

Definition politician : EntityDoc :=
  labelled "Q1047" "Jawaharlal Nehru"
    [("P39", [position_held; position_held]); ("P214", [viaf])].

Definition no_child : Snak :=
  {| property := "P40"; datatype := WIKIBASE_ITEM_DATA_TYPE;
     snaktype := "novalue"; datavalue := None |}.

Definition childless : EntityDoc :=
  labelled "Q1" "no child" [("P40", [plain no_child])].

Definition childless_in_qualifier : EntityDoc :=
  labelled "Q2" "no child, as a qualifier"
    [("P31", [{| mainsnak := instance_of_human;
                 qualifiers := Some [("P40", [no_child])];
                 qualifiers_order := Some ["P40"] |}])].

(** [a] has a statement whose mainsnak is an item value that refers to [b]. *)
Definition references (a b : EntityDoc) : Prop :=
  ∃ claim, claim ∈ concat (dict_values (e_claims a)) ∧
    displayable (mainsnak claim) ∧
    datatype (mainsnak claim) = WIKIBASE_ITEM_DATA_TYPE ∧
    referenced_id (mainsnak claim) = Ok (e_id b).

(** The number of snaks that the qualifier loop of [claims] can visit. *)
Fixpoint visited_qualifiers (d : option (list (string * list Snak)))
    (ids : list string) : nat :=
  match ids with
  | [] => 0
  | qualifier_id :: rest =>
      length (default [] (d ≫= λ d', dict_get d' qualifier_id))
      + visited_qualifiers d rest
  end.

(** The number of snaks of a statement, and of a document, that [claims]
    can hand to [parse_snak]. *)
Definition visited_snaks (claim : Statement) : nat :=
  1 + visited_qualifiers (qualifiers claim) (default [] (qualifiers_order claim)).

Definition snak_count (data : EntityDoc) : nat :=
  sum_list (map visited_snaks (concat (dict_values (e_claims data)))).

Definition spouse (i : string) : Statement :=
  plain {| property := "P26"; datatype := WIKIBASE_ITEM_DATA_TYPE;
           snaktype := "value"; datavalue := Some (PDict [("id", i)]) |}.

Definition alice : EntityDoc := labelled "Q100" "Alice" [("P26", [spouse "Q200"])].

Definition bob : EntityDoc := labelled "Q200" "Bob" [("P26", [spouse "Q100"])].

Definition couple : list string → option (list EntityDoc) :=
  remote_of [alice; bob; labelled "P26" "spouse" []].

(** [t], run from [st], has the outcome and the final state of [c], with
    a stack at most [K] frames deep below its own frame and at most [C]
    frames pushed. *)
Definition runs_within {A} (st : state) (t : Stack.T A) (c : M A)
    (K C : nat) : Prop :=
  fst (t st) = c st ∧
  Stack.peak (snd (t st)) ≤ K ∧
  Stack.calls (snd (t st)) ≤ C.

(** ** Invariants of the cache and assumptions on the remote *)

(** Every file of the data directory holds the document of the identifier
    that names it. *)
Definition cache_consistent (st : state) : Prop :=
  ∀ k e, cache st !! k = Some e → e_id e = k.

(** The remote answers a request with documents of requested identifiers
    only. *)
Definition answers_within (remote : list string → option (list EntityDoc)) : Prop :=
  ∀ chunk entities, remote chunk = Some entities →
    Forall (λ e, e_id e ∈ chunk) entities.

(** A catalogue of documents, one per identifier, whose claims are not
    in sorted key order. *)
Definition catalogue (x : string) : EntityDoc :=
  labelled x ("entity " +:+ x) [("P39", [position_held]); ("P214", [viaf])].

(** A remote that answers full chunks only. *)
Definition flaky_remote : list string → option (list EntityDoc) :=
  λ chunk, if decide (length chunk = WIKIBASE_API_MAX_IDS)
           then echo_remote chunk else None.


(** A statement whose "qualifiers-order" names, after a property that its
    "qualifiers" have, one that they do not have. *)
Definition misordered_later : Statement :=
  {| mainsnak := instance_of_human;
     qualifiers := Some [("P580", [start_time])];
     qualifiers_order := Some ["P580"; "P582"] |}.



(** A remote that answers every request with no document. *)
Definition silent_remote : list string → option (list EntityDoc) :=
  λ _, Some [].

(** The remote answers a request with the document [doc x] for each
    identifier [x] in it, and with no other document. *)
Definition serves_doc (remote : list string → option (list EntityDoc))
    (doc : string → EntityDoc) (chunk : list string) : Prop :=
  match remote chunk with
  | Some answered =>
      Forall (λ x, x ∈ e_id <$> answered) chunk ∧
      Forall (λ e, e_id e ∈ chunk ∧ e = doc (e_id e)) answered
  | None => False
  end.

(** A remote that answers a request with [doc x] for each identifier [x]
    of it, in order. *)
Definition remote_serving (doc : string → EntityDoc)
    : list string → option (list EntityDoc) :=
  λ chunk, Some (map doc chunk).

(** A remote that fails every request. *)
Definition dead_remote : list string → option (list EntityDoc) := λ _, None.

(** Fifty-one pairwise different identifiers, [Q1] to [Q51]. *)
Definition fifty_one : list string := (λ n, "Q" +:+ pretty n) <$> seq 1 51.

(** ** Properties of stored documents *)

(** The items of a dict are in the order of their keys. *)
Fixpoint keys_sorted {V} (d : list (string * V)) : Prop :=
  match d with
  | [] => True
  | (k, _) :: d' =>
      match d' with
      | [] => True
      | (k', _) :: _ => String.leb k k' = true
      end ∧ keys_sorted d'
  end.

(** * Batching *)

Lemma range_aux_length fuel ii stop :
  stop - ii ≤ fuel →
  length (range_aux fuel ii stop 50) = (stop - ii + 49) / 50.
Proof.
  revert ii. induction fuel as [|fuel IH]; intros ii Hfuel; cbn [range_aux].
  - replace (stop - ii) with 0 by lia. reflexivity.
  - destruct (decide (ii < stop)) as [Hlt|Hge]; cbn [length].
    + rewrite IH by lia.
      destruct (decide (stop - ii < 50)) as [Hs|Hs].
      * replace (stop - (ii + 50)) with 0 by lia.
        change ((0 + 49) / 50) with 0.
        apply Nat.div_unique with (r := stop - ii - 1); lia.
      * replace (stop - ii + 49) with ((stop - (ii + 50) + 49) + 1 * 50) by lia.
        rewrite Nat.div_add by lia. lia.
    + replace (stop - ii) with 0 by lia. reflexivity.
Qed.

Lemma range_aux_concat {A} (ids : list A) fuel ii :
  length ids - ii ≤ fuel →
  concat (map (λ ii, slice ids ii (ii + 50)) (range_aux fuel ii (length ids) 50))
  = drop ii ids.
Proof.
  revert ii. induction fuel as [|fuel IH]; intros ii Hfuel; simpl.
  - rewrite drop_ge by lia. reflexivity.
  - destruct (decide (ii < length ids)) as [Hlt|Hge]; simpl.
    + rewrite IH by lia. unfold slice.
      replace (ii + 50 - ii) with 50 by lia.
      rewrite <- (drop_drop ids 50 ii).
      apply take_drop.
    + rewrite drop_ge by lia. reflexivity.
Qed.

Lemma range_aux_bound fuel ii stop step k :
  k ∈ range_aux fuel ii stop step → k < stop.
Proof.
  revert ii. induction fuel as [|fuel IH]; intros ii; simpl.
  - intros H. inversion H.
  - destruct (decide (ii < stop)); [|intros H; inversion H].
    intros [->|H]%elem_of_cons; eauto.
Qed.

Lemma batches_length {A} (ids : list A) :
  length (batches ids) = (length ids + 49) / 50.
Proof.
  unfold batches, range, WIKIBASE_API_MAX_IDS.
  rewrite length_map, range_aux_length by lia.
  rewrite Nat.sub_0_r. reflexivity.
Qed.

Lemma batches_concat {A} (ids : list A) : concat (batches ids) = ids.
Proof.
  unfold batches, range, WIKIBASE_API_MAX_IDS.
  rewrite range_aux_concat by lia. reflexivity.
Qed.

Lemma batches_sizes {A} (ids : list A) :
  Forall (λ chunk, 1 ≤ length chunk ≤ 50) (batches ids).
Proof.
  unfold batches, range, WIKIBASE_API_MAX_IDS.
  apply Forall_forall. intros chunk Hin.
  apply list_elem_of_fmap in Hin as (ii & -> & Hii).
  apply range_aux_bound in Hii.
  unfold slice. rewrite length_take, length_drop. lia.
Qed.

Lemma elem_of_concat {A} (x : A) (ls : list (list A)) :
  x ∈ concat ls ↔ ∃ l, l ∈ ls ∧ x ∈ l.
Proof.
  induction ls as [|l ls IH]; simpl.
  - split; [intros H; inversion H | intros (l & H & _); inversion H].
  - rewrite elem_of_app, IH. split.
    + intros [H|(l' & H1 & H2)].
      * exists l. split; [left | done].
      * exists l'. split; [by right | done].
    + intros (l' & [->|H1]%elem_of_cons & H2); [by left | right; eauto].
Qed.

(** In a list of lists whose concatenation has no repetition, an element
    lies in one member only. *)
Lemma concat_NoDup_disjoint {A} (chunks : list (list A)) :
  NoDup (concat chunks) → chunks_disjoint chunks.
Proof.
  induction chunks as [|c chunks IH]; intros Hnd i j ci cj x Hi Hj Hxi Hxj.
  - rewrite lookup_nil in Hi. discriminate.
  - simpl in Hnd. apply NoDup_app in Hnd as (_ & Hdisj & Hrest).
    destruct i as [|i], j as [|j]; simpl in *.
    + reflexivity.
    + injection Hi as <-. exfalso. apply (Hdisj x Hxi).
      apply elem_of_concat. exists cj. split; [|done].
      eapply list_elem_of_lookup_2; eauto.
    + injection Hj as <-. exfalso. apply (Hdisj x Hxj).
      apply elem_of_concat. exists ci. split; [|done].
      eapply list_elem_of_lookup_2; eauto.
    + f_equal. eapply IH; eauto.
Qed.

(** * The JSON round trip of a stored document *)

Lemma leb_refl (k : string) : String.leb k k = true.
Proof. by destruct (String.leb_total k k). Qed.

Lemma dict_get_insert_item {V} k (v : V) d key :
  dict_get (insert_item k v d) key
  = if decide (k = key) then Some v else dict_get d key.
Proof.
  induction d as [|[k' v'] d IH]; simpl; [done|].
  destruct (String.leb k k') eqn:Hle; simpl; [done|].
  rewrite IH. destruct (decide (k = key)) as [->|Hne]; [|done].
  rewrite decide_False; [done|]. intros ->. by rewrite leb_refl in Hle.
Qed.

Lemma dict_get_sort_keys {V} (d : list (string * V)) key :
  dict_get (sort_keys d) key = dict_get d key.
Proof.
  induction d as [|[k v] d IH]; simpl; [done|].
  by rewrite dict_get_insert_item, IH.
Qed.

Lemma dict_get_map_values {V} (f : V → V) (d : list (string * V)) key :
  dict_get (map (λ item, (item.1, f item.2)) d) key = f <$> dict_get d key.
Proof.
  induction d as [|[k v] d IH]; simpl; [done|].
  destruct (decide (k = key)); [done | apply IH].
Qed.

Lemma insert_item_sorted {V} k (v : V) d :
  keys_sorted d → keys_sorted (insert_item k v d).
Proof.
  induction d as [|[k' v'] d IH]; simpl; [done|].
  intros [Hhd Hd]. destruct (String.leb k k') eqn:Hle; simpl; [done|].
  split; [|by apply IH].
  assert (Hk : String.leb k' k = true).
  { destruct (String.leb_total k k') as [H|H]; [congruence | done]. }
  destruct d as [|[k'' v''] d]; simpl; [done|].
  by destruct (String.leb k k'').
Qed.

Lemma sort_keys_sorted {V} (d : list (string * V)) : keys_sorted (sort_keys d).
Proof.
  induction d as [|[k v] d IH]; simpl; [done|]. by apply insert_item_sorted.
Qed.

Lemma sort_keys_of_sorted {V} (d : list (string * V)) :
  keys_sorted d → sort_keys d = d.
Proof.
  induction d as [|[k v] d IH]; simpl; [done|].
  intros [Hhd Hd]. rewrite IH by done.
  destruct d as [|[k' v'] d]; simpl; [done|]. by rewrite Hhd.
Qed.

Lemma insert_item_map_values {V} (f : V → V) k v (d : list (string * V)) :
  insert_item k (f v) (map (λ item, (item.1, f item.2)) d)
  = map (λ item, (item.1, f item.2)) (insert_item k v d).
Proof.
  induction d as [|[k' v'] d IH]; simpl; [done|].
  destruct (String.leb k k'); simpl; [done|]. by rewrite IH.
Qed.

Lemma sort_keys_map_values {V} (f : V → V) (d : list (string * V)) :
  sort_keys (map (λ item, (item.1, f item.2)) d)
  = map (λ item, (item.1, f item.2)) (sort_keys d).
Proof.
  induction d as [|[k v] d IH]; simpl; [done|].
  by rewrite IH, insert_item_map_values.
Qed.

Lemma dump_dict_idempotent {V} (f : V → V) (d : list (string * V)) :
  (∀ v, f (f v) = f v) → dump_dict f (dump_dict f d) = dump_dict f d.
Proof.
  intros Hf. unfold dump_dict.
  rewrite <- (sort_keys_map_values f (map _ d)).
  rewrite (sort_keys_of_sorted (sort_keys _)) by apply sort_keys_sorted.
  f_equal. rewrite map_map. apply map_ext. intros [k v]. simpl. by rewrite Hf.
Qed.

Lemma dump_snak_idempotent snak : dump_snak (dump_snak snak) = dump_snak snak.
Proof.
  destruct snak as [p dt sn [[| |fields]|]]; unfold dump_snak; simpl; try done.
  by rewrite (sort_keys_of_sorted (sort_keys _)) by apply sort_keys_sorted.
Qed.

Lemma dump_statement_idempotent claim :
  dump_statement (dump_statement claim) = dump_statement claim.
Proof.
  destruct claim as [main qs order]. unfold dump_statement. simpl.
  rewrite dump_snak_idempotent. f_equal.
  destruct qs as [d|]; simpl; [|done]. f_equal.
  apply dump_dict_idempotent. intros snaks. rewrite map_map.
  apply map_ext. intros snak. apply dump_snak_idempotent.
Qed.

Lemma json_dump_load_idempotent entity :
  json_dump_load (json_dump_load entity) = json_dump_load entity.
Proof.
  unfold json_dump_load. simpl. f_equal.
  apply dump_dict_idempotent. intros claims. rewrite map_map.
  apply map_ext. intros claim. apply dump_statement_idempotent.
Qed.

(** * The resolver *)

Lemma get_non_local_ids_loop_filter c ids acc :
  get_non_local_ids_loop c ids acc = acc ++ filter (λ x, c !! x = None) ids.
Proof.
  revert acc. induction ids as [|x ids IH]; intros acc; simpl.
  - by rewrite app_nil_r.
  - destruct (c !! x) eqn:Hx.
    + rewrite IH, filter_cons_False; [done | by rewrite Hx].
    + rewrite IH, filter_cons_True by done. by rewrite <- app_assoc.
Qed.

Section ResolverFacts.

Variable remote : list string → option (list EntityDoc).

Lemma store_entites_locally_spec entities st :
  ∃ st', store_entites_locally entities st = (Ok tt, st') ∧
    requests st' = requests st ∧
    (∀ e, e ∈ entities → is_Some (cache st' !! e_id e)) ∧
    (∀ k, is_Some (cache st !! k) → is_Some (cache st' !! k)).
Proof.
  revert st. induction entities as [|e entities IH]; intros st; simpl.
  - exists st. repeat split; [|done]. intros e H. inversion H.
  - destruct (IH {| cache := <[e_id e:=json_dump_load e]> (cache st);
                    requests := requests st |})
      as (st' & Heq & Hreq & Hnew & Hold).
    exists st'. split; [done|]. split; [done|]. split.
    + intros e' [->|Hin]%elem_of_cons; [|by apply Hnew].
      apply Hold. simpl. rewrite lookup_insert_eq. by eexists.
    + intros k Hk. apply Hold. simpl.
      destruct (decide (e_id e = k)) as [->|Hne].
      * rewrite lookup_insert_eq. by eexists.
      * by rewrite lookup_insert_ne.
Qed.

Lemma fetch_batch_spec chunk st r st' :
  fetch_batch remote chunk st = (r, st') →
  requests st' = requests st ++ [chunk] ∧
  (∀ k, is_Some (cache st !! k) → is_Some (cache st' !! k)) ∧
  match remote chunk with
  | Some entities => r = Ok tt ∧ ∀ e, e ∈ entities → is_Some (cache st' !! e_id e)
  | None => r = Err (RequestError chunk) ∧ cache st' = cache st
  end.
Proof.
  unfold fetch_batch. destruct (remote chunk) as [entities|].
  - destruct (store_entites_locally_spec entities
      {| cache := cache st; requests := requests st ++ [chunk] |})
      as (st1 & Heq & Hreq & Hnew & Hold).
    rewrite Heq. intros [= <- <-]. auto.
  - intros [= <- <-]. auto.
Qed.

(** The generator of fetches, run to its end: one request per chunk, in
    order, and nothing is ever removed from the data directory. *)
Lemma star_args_fetch_batch_spec chunks st r st' :
  star_args (fetch_batch remote) chunks st = (r, st') →
  (∀ k, is_Some (cache st !! k) → is_Some (cache st' !! k)) ∧
  match r with
  | Ok args =>
      length args = length chunks ∧
      requests st' = requests st ++ chunks ∧
      ∀ chunk entities e, chunk ∈ chunks → remote chunk = Some entities →
        e ∈ entities → is_Some (cache st' !! e_id e)
  | Err _ =>
      ∃ n, n < length chunks ∧ requests st' = requests st ++ take (S n) chunks
  end.
Proof.
  revert st r st'. induction chunks as [|chunk chunks IH]; intros st r st'; simpl.
  - unfold ret. intros [= <- <-]. split; [done|]. simpl.
    rewrite app_nil_r. repeat split. intros ? ? ? H. inversion H.
  - unfold bind at 1.
    destruct (fetch_batch remote chunk st) as [r1 st1] eqn:H1.
    apply fetch_batch_spec in H1 as (Hreq1 & Hmono1 & Hrem).
    destruct r1 as [[]|e1].
    + unfold bind at 1.
      destruct (star_args (fetch_batch remote) chunks st1) as [r2 st2] eqn:H2.
      apply IH in H2 as (Hmono2 & Hrest).
      destruct r2 as [args|e2]; unfold ret; intros [= <- <-].
      * split; [auto|]. destruct Hrest as (Hlen & Hreq2 & Hstored).
        split; [simpl; by rewrite Hlen|]. split.
        { rewrite Hreq2, Hreq1, <- app_assoc. done. }
        intros c entities e [->|Hin]%elem_of_cons Hc He; [|eauto].
        apply Hmono2. rewrite Hc in Hrem. destruct Hrem as [_ Hrem]. auto.
      * split; [auto|]. destruct Hrest as (n & Hn & Hreq2).
        exists (S n). split; [simpl; lia|].
        rewrite Hreq2, Hreq1, <- app_assoc. done.
    + intros [= <- <-]. split; [auto|].
      exists 0. split; [simpl; lia|]. rewrite Hreq1. by rewrite take_0.
Qed.

Lemma star_args_fetch_batch_served chunks st :
  Forall (serves remote) chunks →
  ∃ args st', star_args (fetch_batch remote) chunks st = (Ok args, st') ∧
    ∀ x, x ∈ concat chunks → is_Some (cache st' !! x).
Proof.
  intros Hserves.
  destruct (star_args (fetch_batch remote) chunks st) as [r st'] eqn:Hrun.
  assert (Hok : ∃ args, r = Ok args).
  { clear -Hrun Hserves. revert st r st' Hrun.
    induction Hserves as [|chunk chunks Hchunk _ IH]; intros st r st'; simpl.
    - unfold ret. intros [= <- <-]. eauto.
    - unfold bind at 1.
      destruct (fetch_batch remote chunk st) as [r1 st1] eqn:H1.
      apply fetch_batch_spec in H1 as (_ & _ & Hrem).
      unfold serves in Hchunk.
      destruct (remote chunk) as [entities|]; [|done].
      destruct Hrem as [-> _].
      unfold bind at 1.
      destruct (star_args (fetch_batch remote) chunks st1) as [r2 st2] eqn:H2.
      apply IH in H2 as [args ->].
      unfold ret. intros [= <- <-]. eauto. }
  destruct Hok as [args ->]. exists args, st'. split; [done|].
  apply star_args_fetch_batch_spec in Hrun as (_ & _ & _ & Hstored).
  intros x (chunk & Hchunk & Hx)%elem_of_concat.
  pose proof (proj1 (Forall_forall _ _) Hserves chunk Hchunk) as Hs.
  unfold serves in Hs.
  destruct (remote chunk) as [entities|] eqn:Hsome; [|done].
  pose proof (proj1 (Forall_forall _ _) Hs x Hx) as Hin.
  apply list_elem_of_fmap in Hin as (e & -> & He). eauto.
Qed.

Lemma get_local_entities_loop_state ids acc st r st' :
  get_local_entities_loop ids acc st = (r, st') → st' = st.
Proof.
  revert acc. induction ids as [|x ids IH]; intros acc; simpl.
  - unfold ret. by intros [= _ <-].
  - destruct (cache st !! x); [apply IH | by intros [= _ <-]].
Qed.

Lemma get_local_entities_loop_ok ids acc st entities st' :
  get_local_entities_loop ids acc st = (Ok entities, st') →
  ∃ new, entities = acc ++ new ∧
    Forall2 (λ x e, cache st !! x = Some e) ids new.
Proof.
  revert acc. induction ids as [|x ids IH]; intros acc; simpl.
  - unfold ret. intros [= <- _]. exists []. by rewrite app_nil_r.
  - destruct (cache st !! x) as [e|] eqn:Hx; [|discriminate].
    intros (new & -> & Hall)%IH. exists (e :: new).
    rewrite <- app_assoc. split; [done|]. by constructor.
Qed.

Lemma get_local_entities_loop_present ids acc st :
  (∀ x, x ∈ ids → is_Some (cache st !! x)) →
  ∃ entities, get_local_entities_loop ids acc st = (Ok entities, st).
Proof.
  revert acc. induction ids as [|x ids IH]; intros acc Hall; simpl.
  - unfold ret. eauto.
  - destruct (Hall x) as [e ->]; [by left|].
    apply IH. intros; apply Hall; by right.
Qed.

Lemma get_entities_unfold ids st :
  get_entities remote ids st =
  match fetch_missing remote ids st with
  | (Ok _, st1) => get_local_entities ids st1
  | (Err e, st1) => (Err e, st1)
  end.
Proof.
  unfold get_entities, bind.
  destruct (fetch_missing remote ids st) as [[ch|e] st1]; [|done].
  destruct (get_local_entities ids st1) as [[entities|e] st2]; done.
Qed.

Lemma fetch_missing_unfold ids st :
  fetch_missing remote ids st =
  match star_args (fetch_batch remote) (batches (missing st ids)) st with
  | (Ok args, st1) => (Ok (itertools_chain args), st1)
  | (Err e, st1) => (Err e, st1)
  end.
Proof.
  unfold fetch_missing, bind, get_non_local_ids, missing.
  rewrite get_non_local_ids_loop_filter. simpl.
  destruct (star_args _ _ st) as [[args|e] st1]; done.
Qed.

Lemma store_entites_locally_provenance entities st k d :
  cache (snd (store_entites_locally entities st)) !! k = Some d →
  cache st !! k = Some d ∨
  ∃ e, e ∈ entities ∧ e_id e = k ∧ d = json_dump_load e.
Proof.
  revert st. induction entities as [|e entities IH]; intros st; simpl; [by left|].
  intros [Hold|(e' & He' & Hk & Hd)]%IH.
  - simpl in Hold. destruct (decide (e_id e = k)) as [<-|Hne].
    + rewrite lookup_insert_eq in Hold. injection Hold as <-.
      right. exists e. split; [by left | done].
    + rewrite lookup_insert_ne in Hold by done. by left.
  - right. exists e'. split; [by right | done].
Qed.

(** Whatever the cache holds after the fetches was there before or is
    the file of a document that the remote answered under that
    identifier. *)
Lemma star_args_fetch_batch_provenance chunks st k d :
  cache (snd (star_args (fetch_batch remote) chunks st)) !! k = Some d →
  cache st !! k = Some d ∨
  ∃ chunk answered e,
    chunk ∈ chunks ∧ remote chunk = Some answered ∧
    e ∈ answered ∧ e_id e = k ∧ d = json_dump_load e.
Proof.
  revert st. induction chunks as [|chunk chunks IH]; intros st; simpl; [by left|].
  unfold bind at 1, fetch_batch at 1.
  destruct (remote chunk) as [answered|] eqn:Hchunk; [|by left].
  pose proof (store_entites_locally_provenance answered
    {| cache := cache st; requests := requests st ++ [chunk] |} k d) as Hstore.
  destruct (store_entites_locally answered _) as [[[]|err] st1]; simpl in *;
    [|by intros [H|(e & He & Hk & Hd)]%Hstore;
        [left | right; exists chunk, answered, e; split; [by left|]]].
  specialize (IH st1). unfold bind at 1.
  destruct (star_args (fetch_batch remote) chunks st1) as [[args|err] st2];
    simpl in *;
    (intros [H|(c & a & e & Hc & Ha & He & Hk & Hd)]%IH;
     [apply Hstore in H as [H|(e & He & Hk & Hd)];
        [by left | right; exists chunk, answered, e; split; [by left|done]]
     | right; exists c, a, e; split; [by right|done]]).
Qed.

Lemma store_entites_locally_doc doc (chunk : list string) answered st k :
  Forall (λ e, e_id e ∈ chunk ∧ e = doc (e_id e)) answered →
  cache (snd (store_entites_locally answered st)) !! k
  = if decide (k ∈ e_id <$> answered) then Some (json_dump_load (doc k))
    else cache st !! k.
Proof.
  intros Hdoc. revert st.
  induction Hdoc as [|e answered [_ He] _ IH]; intros st.
  - destruct (decide (k ∈ e_id <$> [])) as [Hin|_]; [inversion Hin | done].
  - cbn [store_entites_locally]. rewrite IH. cbn [cache].
    destruct (decide (k ∈ e_id <$> answered)) as [Hin|Hnin];
      destruct (decide (k ∈ e_id <$> e :: answered)) as [Hin'|Hnin'].
    + done.
    + exfalso. apply Hnin'. rewrite fmap_cons. by right.
    + rewrite fmap_cons in Hin'. apply elem_of_cons in Hin' as [->|?]; [|done].
      rewrite lookup_insert_eq. by rewrite <- He.
    + rewrite lookup_insert_ne; [done|].
      intros <-. apply Hnin'. rewrite fmap_cons. by left.
Qed.

(** With a remote that answers each chunk with the documents [doc x] of
    its identifiers, the fetches return, one request per chunk, and the
    cache holds afterwards the file of [doc x] for every identifier sent
    and is as before elsewhere. *)
Lemma star_args_fetch_batch_doc doc chunks st :
  Forall (serves_doc remote doc) chunks →
  ∃ args st',
    star_args (fetch_batch remote) chunks st = (Ok args, st') ∧
    requests st' = requests st ++ chunks ∧
    ∀ k, cache st' !! k
         = if decide (k ∈ concat chunks) then Some (json_dump_load (doc k))
           else cache st !! k.
Proof.
  intros Hserves. revert st.
  induction Hserves as [|chunk chunks Hchunk _ IH]; intros st.
  - exists [], st. rewrite app_nil_r. split; [done|]. split; [done|].
    intros k. destruct (decide (k ∈ concat [])) as [Hin|_]; [inversion Hin|done].
  - unfold serves_doc in Hchunk. cbn [star_args].
    unfold bind at 1, fetch_batch at 1.
    destruct (remote chunk) as [answered|]; [|done].
    destruct Hchunk as [Hall Hdoc].
    pose proof (store_entites_locally_doc doc chunk answered
      {| cache := cache st; requests := requests st ++ [chunk] |}) as Hstore.
    destruct (store_entites_locally_spec answered
      {| cache := cache st; requests := requests st ++ [chunk] |})
      as (st1 & Heq & Hreq1 & _).
    rewrite Heq in Hstore |- *. cbn [snd cache requests] in Hstore, Hreq1.
    destruct (IH st1) as (args & st' & Hrun & Hreq & Hcache).
    unfold bind at 1. rewrite Hrun. unfold ret.
    exists (tt :: args), st'. split; [done|]. split.
    { rewrite Hreq, Hreq1, <- app_assoc. done. }
    intros k. rewrite Hcache, Hstore by done.
    assert (Hsame : k ∈ e_id <$> answered ↔ k ∈ chunk).
    { split.
      - intros (e & -> & He)%list_elem_of_fmap.
        by apply (proj1 (Forall_forall _ _) Hdoc e He).
      - intros Hk. by apply (proj1 (Forall_forall _ _) Hall k Hk). }
    cbn [concat].
    destruct (decide (k ∈ concat chunks)) as [Hin|Hnin];
      destruct (decide (k ∈ chunk ++ concat chunks)) as [Hin'|Hnin'];
      destruct (decide (k ∈ e_id <$> answered)) as [Hk|Hk]; try done;
      exfalso; try rewrite elem_of_app in Hin'; try rewrite elem_of_app in Hnin';
      tauto.
Qed.

Lemma star_args_fetch_batch_answered chunks st :
  Forall (λ chunk, is_Some (remote chunk)) chunks →
  ∃ args st', star_args (fetch_batch remote) chunks st = (Ok args, st').
Proof.
  intros Hall. revert st.
  induction Hall as [|chunk chunks [answered Hchunk] _ IH]; intros st.
  - by exists [], st.
  - cbn [star_args]. unfold bind at 1, fetch_batch at 1. rewrite Hchunk.
    destruct (store_entites_locally_spec answered
      {| cache := cache st; requests := requests st ++ [chunk] |})
      as (st1 & -> & _).
    destruct (IH st1) as (args & st' & Hrun).
    unfold bind at 1. rewrite Hrun. unfold ret. by exists (tt :: args), st'.
Qed.

Lemma serves_doc_serves doc chunk :
  serves_doc remote doc chunk → serves remote chunk.
Proof.
  unfold serves_doc, serves. destruct (remote chunk); [|done]. by intros [? _].
Qed.

Lemma Forall2_cached_map (f : string → EntityDoc) (c : gmap string EntityDoc)
    ids entities :
  Forall2 (λ x e, c !! x = Some e) ids entities →
  (∀ x, x ∈ ids → c !! x = Some (f x)) →
  entities = map f ids.
Proof.
  induction 1 as [|x e ids entities Hx _ IH]; intros Hf; [done|].
  cbn [map]. f_equal.
  - specialize (Hf x (list_elem_of_here _ _)). congruence.
  - apply IH. intros y Hy. apply Hf. by right.
Qed.

End ResolverFacts.

Lemma remote_serving_serves_doc doc chunk :
  (∀ x, e_id (doc x) = x) → serves_doc (remote_serving doc) doc chunk.
Proof.
  intros Hid. unfold serves_doc, remote_serving. split.
  - apply Forall_forall. intros x Hx. apply list_elem_of_fmap.
    exists (doc x). split; [by rewrite Hid|].
    apply list_elem_of_fmap. by exists x.
  - apply Forall_forall. intros e (x & -> & Hx)%list_elem_of_fmap.
    rewrite Hid. done.
Qed.

Section ResolverClaims.

Variable remote : list string → option (list EntityDoc).

(** C1: when every request for the missing identifiers is answered,
    [get_entities] has run the fetch of every chunk of missing identifiers
    before [get_local_entities] reads the requested identifiers back: the
    generator of [fetch_batch] calls is consumed to its end when the
    arguments of [itertools.chain] are built (one logged request per
    chunk, every call returned; the chain object itself only wraps the
    calls' results), and in the very state that [get_local_entities]
    reads, the file of every missing identifier is the JSON file of a
    document that the remote answered under that identifier to one of
    these requests. *)
Theorem get_entities_fetches_before_reading ids st :
  Forall (serves remote) (batches (missing st ids)) →
  ∃ pending st1,
    get_non_local_ids ids st = (Ok (missing st ids), st) ∧
    fetch_missing remote ids st = (Ok pending, st1) ∧
    get_entities remote ids st = get_local_entities ids st1 ∧
    length (chain_pending pending) = length (batches (missing st ids)) ∧
    requests st1 = requests st ++ batches (missing st ids) ∧
    (∀ x, x ∈ missing st ids →
       (∃ chunk, chunk ∈ batches (missing st ids) ∧ x ∈ chunk) ∧
       is_Some (cache st1 !! x)) ∧
    (∀ x, x ∈ ids → is_Some (cache st1 !! x)) ∧
    (∀ x, x ∈ missing st ids →
       ∃ chunk answered e,
         chunk ∈ batches (missing st ids) ∧
         remote chunk = Some answered ∧
         e ∈ answered ∧ e_id e = x ∧
         cache st1 !! x = Some (json_dump_load e)).
Proof.
  intros Hserves.
  destruct (star_args_fetch_batch_served remote _ st Hserves)
    as (args & st1 & Hrun & Hstored).
  pose proof (star_args_fetch_batch_spec remote _ _ _ _ Hrun)
    as (Hmono & Hlen & Hreq & _).
  pose proof (star_args_fetch_batch_provenance remote
    (batches (missing st ids)) st) as Hprov.
  rewrite Hrun in Hprov. cbn [snd] in Hprov.
  rewrite batches_concat in Hstored.
  exists (itertools_chain args), st1.
  split. { unfold get_non_local_ids, missing.
           by rewrite get_non_local_ids_loop_filter. }
  assert (Hfm : fetch_missing remote ids st = (Ok (itertools_chain args), st1)).
  { by rewrite fetch_missing_unfold, Hrun. }
  split; [done|]. split. { by rewrite get_entities_unfold, Hfm. }
  split; [done|]. split; [done|]. split; [|split].
  - intros x Hx. split; [|auto].
    apply elem_of_concat. by rewrite batches_concat.
  - intros x Hx. destruct (cache st !! x) as [e|] eqn:Hc.
    + apply Hmono. rewrite Hc. by eexists.
    + apply Hstored. unfold missing. by apply list_elem_of_filter.
  - intros x Hx. destruct (Hstored x Hx) as [d Hd].
    apply list_elem_of_filter in Hx as [Hnone _].
    destruct (Hprov x d Hd) as [Hold|(chunk & answered & e & ? & ? & ? & ? & ->)].
    + congruence.
    + by exists chunk, answered, e.
Qed.

(** C2 (as the code has it): the missing identifiers are the requested
    ones that have no document in the cache, in input order and with every
    occurrence kept; the list is free of repetitions when the input is;
    and when every request of the call is answered, the requests that
    [get_entities] sends hold, put end to end, exactly this list, so an
    absent identifier is sent as many times as it occurs in the input. *)
Theorem get_non_local_ids_keeps_occurrences ids st :
  get_non_local_ids ids st = (Ok (filter (λ x, cache st !! x = None) ids), st) ∧
  (∀ x, cache st !! x = None →
     filter (λ y, y = x) (filter (λ x, cache st !! x = None) ids)
     = filter (λ y, y = x) ids) ∧
  (NoDup ids → NoDup (filter (λ x, cache st !! x = None) ids)) ∧
  (Forall (λ chunk, is_Some (remote chunk))
     (batches (filter (λ x, cache st !! x = None) ids)) →
   ∃ sent,
     requests (snd (get_entities remote ids st)) = requests st ++ sent ∧
     concat sent = filter (λ x, cache st !! x = None) ids ∧
     ∀ x, cache st !! x = None →
       filter (λ y, y = x) (concat sent) = filter (λ y, y = x) ids).
Proof.
  assert (Hocc : ∀ x, cache st !! x = None →
     filter (λ y, y = x) (filter (λ x, cache st !! x = None) ids)
     = filter (λ y, y = x) ids).
  { intros x Hx. induction ids as [|y ids IH]; [done|].
    destruct (decide (y = x)) as [->|Hne].
    + rewrite (filter_cons_True (λ x, cache st !! x = None)) by done.
      rewrite !(filter_cons_True (λ y, y = x)) by done. by rewrite IH.
    + rewrite (filter_cons_False (λ y, y = x) y ids) by done.
      destruct (decide (cache st !! y = None)).
      * rewrite (filter_cons_True (λ x, cache st !! x = None)) by done.
        by rewrite (filter_cons_False (λ y, y = x)) by done.
      * by rewrite (filter_cons_False (λ x, cache st !! x = None)) by done. }
  split; [|split; [|split]].
  - unfold get_non_local_ids. by rewrite get_non_local_ids_loop_filter.
  - exact Hocc.
  - apply NoDup_filter.
  - intros Hanswered.
    destruct (star_args_fetch_batch_answered remote _ st Hanswered)
      as (args & st1 & Hrun).
    pose proof (star_args_fetch_batch_spec remote _ _ _ _ Hrun)
      as (_ & _ & Hreq & _).
    exists (batches (filter (λ x, cache st !! x = None) ids)).
    split; [|split].
    + rewrite get_entities_unfold, fetch_missing_unfold. unfold missing.
      rewrite Hrun.
      destruct (get_local_entities ids st1) as [r st2] eqn:Hloc.
      apply get_local_entities_loop_state in Hloc as ->. exact Hreq.
    + apply batches_concat.
    + intros x Hx. rewrite batches_concat. by apply Hocc.
Qed.

(** C3: when every request for the missing identifiers is answered,
    [get_entities] returns one document per requested identifier, at the
    same position; the document at the position of [x] is the one that
    was cached for [x] before the call or the JSON file of a document
    that the remote answered under [x]; equal identifiers get equal
    documents; and when the remote answers every identifier [x] with the
    document [doc x], the result is, position by position, the cached
    document of [x] if there was one and the file of [doc x] if not. *)
Theorem get_entities_in_input_order ids st :
  Forall (serves remote) (batches (missing st ids)) →
  ∃ entities st',
    get_entities remote ids st = (Ok entities, st') ∧
    length entities = length ids ∧
    Forall2 (λ x e, cache st' !! x = Some e) ids entities ∧
    (∀ i j x, ids !! i = Some x → ids !! j = Some x →
       is_Some (entities !! i) ∧ entities !! i = entities !! j) ∧
    Forall2 (λ x e,
       cache st !! x = Some e ∨
       ∃ chunk answered e0,
         chunk ∈ batches (missing st ids) ∧ remote chunk = Some answered ∧
         e0 ∈ answered ∧ e_id e0 = x ∧ e = json_dump_load e0 ∧ e_id e = x)
      ids entities ∧
    (∀ doc, Forall (serves_doc remote doc) (batches (missing st ids)) →
       entities
       = map (λ x, default (json_dump_load (doc x)) (cache st !! x)) ids).
Proof.
  intros Hserves.
  destruct (star_args_fetch_batch_served remote _ st Hserves)
    as (args & st1 & Hrun & Hstored).
  pose proof (star_args_fetch_batch_spec remote _ _ _ _ Hrun) as (Hmono & _).
  pose proof (star_args_fetch_batch_provenance remote
    (batches (missing st ids)) st) as Hprov.
  rewrite Hrun in Hprov. cbn [snd] in Hprov.
  rewrite batches_concat in Hstored.
  assert (Hget : get_entities remote ids st = get_local_entities ids st1).
  { by rewrite get_entities_unfold, fetch_missing_unfold, Hrun. }
  assert (Hall : ∀ x, x ∈ ids → is_Some (cache st1 !! x)).
  { intros x Hx. destruct (cache st !! x) as [e|] eqn:Hc.
    - apply Hmono. rewrite Hc. by eexists.
    - apply Hstored. unfold missing. by apply list_elem_of_filter. }
  destruct (get_local_entities_loop_present ids [] st1 Hall) as [entities Hloc].
  pose proof (get_local_entities_loop_ok _ _ _ _ _ Hloc) as (new & -> & HF).
  exists new, st1. simpl in *.
  split. { by rewrite Hget. }
  split. { symmetry. by eapply Forall2_length. }
  split; [done|].
  split.
  { intros i j x Hi Hj.
    destruct (Forall2_lookup_l _ _ _ _ _ HF Hi) as (ei & Hei & Hci).
    destruct (Forall2_lookup_l _ _ _ _ _ HF Hj) as (ej & Hej & Hcj).
    rewrite Hei, Hej. split; [by eexists|]. congruence. }
  split.
  { eapply Forall2_impl; [exact HF|]. intros x e Hx. cbv beta in Hx.
    destruct (Hprov x e Hx)
      as [Hold|(chunk & answered & e0 & ? & ? & ? & ? & ->)]; [by left|].
    right. by exists chunk, answered, e0. }
  intros doc Hdoc.
  destruct (star_args_fetch_batch_doc remote doc _ st Hdoc)
    as (args' & st1' & Hrun' & _ & Hcache).
  rewrite Hrun in Hrun'. injection Hrun' as _ <-.
  rewrite batches_concat in Hcache.
  apply (Forall2_cached_map _ (cache st1)); [exact HF|].
  intros x Hx. rewrite Hcache. unfold missing.
  destruct (decide (x ∈ filter (λ x, cache st !! x = None) ids)) as [Hin|Hnin].
  - apply list_elem_of_filter in Hin as [-> _]. done.
  - destruct (cache st !! x) as [e|] eqn:Hc; [done|].
    exfalso. apply Hnin. by apply list_elem_of_filter.
Qed.

End ResolverClaims.

(** C4 (as the code has it): [batches] cuts a list of N identifiers into
    ceil(N/50) consecutive non-empty chunks of at most 50 whose
    concatenation is the list, so the chunks hold the identifiers of the
    list and no others; chunks share no identifier when the list has no
    repetition; and a fetch issues one request per chunk, in order (up
    to and including the first one that fails). *)
Theorem batches_partition (ids : list string) :
  length (batches ids) = (length ids + 49) / 50 ∧
  Forall (λ chunk, 1 ≤ length chunk ≤ 50) (batches ids) ∧
  concat (batches ids) = ids ∧
  (∀ x, x ∈ ids ↔ ∃ chunk, chunk ∈ batches ids ∧ x ∈ chunk) ∧
  (NoDup ids → chunks_disjoint (batches ids)) ∧
  (∀ remote st r st',
     star_args (fetch_batch remote) (batches ids) st = (r, st') →
     match r with
     | Ok _ => requests st' = requests st ++ batches ids
     | Err _ => ∃ n, n < length (batches ids) ∧
                  requests st' = requests st ++ take (S n) (batches ids)
     end).
Proof.
  split; [apply batches_length|].
  split; [apply batches_sizes|].
  split; [apply batches_concat|].
  split. { intros x. by rewrite <- elem_of_concat, batches_concat. }
  split. { intros Hnd. apply concat_NoDup_disjoint. by rewrite batches_concat. }
  intros remote st r st' Hrun.
  apply star_args_fetch_batch_spec in Hrun as (_ & Hr).
  destruct r; [tauto | done].
Qed.

Lemma get_entities_fetches_before_reading_witness :
  Forall (serves (remote_serving catalogue)) (batches (missing warm_state three)) ∧
  ∃ pending st1,
    fetch_missing (remote_serving catalogue) three warm_state = (Ok pending, st1) ∧
    get_entities (remote_serving catalogue) three warm_state
    = get_local_entities three st1 ∧
    requests st1 = requests warm_state ++ batches (missing warm_state three) ∧
    is_Some (cache st1 !! "P31") ∧
    ∃ chunk answered e,
      chunk ∈ batches (missing warm_state three) ∧
      remote_serving catalogue chunk = Some answered ∧
      e ∈ answered ∧ e_id e = "P31" ∧
      cache st1 !! "P31" = Some (json_dump_load e).
Proof.
  assert (H : Forall (serves (remote_serving catalogue))
                (batches (missing warm_state three))).
  { apply (bool_decide_unpack _). vm_compute. exact I. }
  assert (Hm : "P31" ∈ missing warm_state three).
  { apply (bool_decide_unpack _). vm_compute. exact I. }
  split; [exact H|].
  destruct (get_entities_fetches_before_reading (remote_serving catalogue)
              three warm_state H)
    as (pending & st1 & _ & Hf & Hg & _ & Hr & _ & Hall & Hprov).
  exists pending, st1. split; [exact Hf|]. split; [exact Hg|].
  split; [exact Hr|]. split.
  - apply Hall. unfold three. right. by left.
  - exact (Hprov "P31" Hm).
Defined.

Example get_entities_warm_requests :
  requests (snd (get_entities (remote_serving catalogue) three warm_state))
  = [["P31"]] ∧
  cache (snd (get_entities (remote_serving catalogue) three warm_state)) !! "P31"
  = Some (json_dump_load (catalogue "P31")).
Proof. split; vm_compute; reflexivity. Qed.

(** C2, as stated, fails: an identifier that is absent from the cache and
    occurs twice in the input is listed twice as missing and is sent twice
    to the remote. *)
Lemma get_non_local_ids_not_deduplicated :
  get_non_local_ids ["Q1"; "Q1"] empty_state = (Ok ["Q1"; "Q1"], empty_state) ∧
  ¬ NoDup ["Q1"; "Q1"] ∧
  requests (snd (get_entities echo_remote ["Q1"; "Q1"] empty_state))
  = [["Q1"; "Q1"]].
Proof.
  split; [reflexivity|]. split; [|vm_compute; reflexivity].
  intros H. apply NoDup_cons in H as [H _]. apply H. by left.
Qed.

Lemma get_non_local_ids_keeps_occurrences_witness :
  NoDup ["Q5"; "P31"; "Q1"] ∧
  Forall (λ chunk, is_Some (echo_remote chunk))
    (batches (filter (λ x, cache warm_state !! x = None) ["Q5"; "P31"; "Q1"])) ∧
  NoDup (filter (λ x, cache warm_state !! x = None) ["Q5"; "P31"; "Q1"]) ∧
  ∃ sent,
    requests (snd (get_entities echo_remote ["Q5"; "P31"; "Q1"] warm_state))
    = requests warm_state ++ sent ∧
    concat sent = filter (λ x, cache warm_state !! x = None) ["Q5"; "P31"; "Q1"].
Proof.
  assert (H : NoDup ["Q5"; "P31"; "Q1"])
    by (apply (bool_decide_unpack _); vm_compute; exact I).
  assert (Ha : Forall (λ chunk, is_Some (echo_remote chunk))
    (batches (filter (λ x, cache warm_state !! x = None) ["Q5"; "P31"; "Q1"]))).
  { apply (bool_decide_unpack _). vm_compute. exact I. }
  split; [exact H|]. split; [exact Ha|].
  destruct (get_non_local_ids_keeps_occurrences echo_remote
              ["Q5"; "P31"; "Q1"] warm_state) as (_ & _ & Hnd & Hsent).
  split; [exact (Hnd H)|].
  destruct (Hsent Ha) as (sent & Hreq & Hcat & _).
  exists sent. split; [exact Hreq | exact Hcat].
Defined.

(** An absent identifier that occurs twice is sent twice when the request
    is answered, and the request log is cut short when a request fails:
    of 51 occurrences, the 50 of the first chunk are sent and no more. *)
Example get_entities_sends_each_occurrence :
  concat (requests (snd (get_entities echo_remote ["Q1"; "Q5"; "Q1"] warm_state)))
  = ["Q1"; "Q1"] ∧
  concat (requests (snd (get_entities dead_remote (replicate 51 "Q1") empty_state)))
  = replicate 50 "Q1".
Proof. split; vm_compute; reflexivity. Qed.

Lemma get_entities_in_input_order_witness :
  Forall (serves (remote_serving catalogue)) (batches (missing warm_state three)) ∧
  ∃ entities st',
    get_entities (remote_serving catalogue) three warm_state = (Ok entities, st') ∧
    length entities = 3 ∧
    entities !! 0 = entities !! 2 ∧
    entities = [labelled "Q5" "human" [];
                json_dump_load (catalogue "P31");
                labelled "Q5" "human" []].
Proof.
  assert (H : Forall (serves (remote_serving catalogue))
                (batches (missing warm_state three))).
  { apply (bool_decide_unpack _). vm_compute. exact I. }
  split; [exact H|].
  destruct (get_entities_in_input_order (remote_serving catalogue)
              three warm_state H)
    as (entities & st' & Hg & Hl & _ & Hdup & _ & Hdoc).
  exists entities, st'. split; [exact Hg|]. split; [exact Hl|].
  split; [apply (Hdup 0 2 "Q5"); reflexivity|].
  rewrite (Hdoc catalogue).
  - reflexivity.
  - apply Forall_forall. intros chunk _.
    apply remote_serving_serves_doc. reflexivity.
Defined.

Example get_entities_x_y_x :
  fst (get_entities (remote_serving catalogue) three warm_state)
  = Ok [labelled "Q5" "human" [];
        labelled "P31" "entity P31"
          [("P214", [dump_statement viaf]);
           ("P39", [dump_statement position_held])];
        labelled "Q5" "human" []].
Proof. vm_compute. reflexivity. Qed.

(** C4, as stated, fails on a list with a repetition: of 51 identifiers
    that are all ["Q1"], the first chunk holds 50 and the second one, and
    both hold ["Q1"]; and the fetch of these two chunks issues a request
    for each only if the first is answered: with a remote that fails, the
    second chunk is never requested. *)
Lemma batches_share_repeated_identifier :
  ¬ chunks_disjoint (batches (replicate 51 "Q1")) ∧
  requests (snd (get_entities echo_remote (replicate 51 "Q1") empty_state))
  = [replicate 50 "Q1"; ["Q1"]] ∧
  requests (snd (get_entities dead_remote (replicate 51 "Q1") empty_state))
  = [replicate 50 "Q1"].
Proof.
  split; [|split; vm_compute; reflexivity].
  intros H. specialize (H 0 1 (replicate 50 "Q1") ["Q1"] "Q1").
  discriminate H; [reflexivity | reflexivity | by left | by left].
Qed.

Lemma batches_partition_witness :
  NoDup fifty_one ∧
  length (batches fifty_one) = 2 ∧
  batches fifty_one !! 1 = Some ["Q51"] ∧
  chunks_disjoint (batches fifty_one).
Proof.
  assert (H : NoDup fifty_one)
    by (apply (bool_decide_unpack _); vm_compute; exact I).
  split; [exact H|].
  split; [vm_compute; reflexivity|].
  split; [vm_compute; reflexivity|].
  apply batches_partition. exact H.
Defined.

(** * The claim normalizer *)

Section NormalizerFacts.

Variable remote : list string → option (list EntityDoc).

Lemma parse_snak_not_displayable snak st :
  ¬ displayable snak → parse_snak remote snak st = (Ok None, st).
Proof.
  intros Hnot. unfold parse_snak.
  destruct (decide (datatype snak ∉ INTERESTING_DATA_TYPES)) as [|Hin]; [done|].
  destruct (decide (snaktype snak ≠ "value")) as [|Hval]; [done|].
  exfalso. apply Hnot. split.
  - by apply dec_stable.
  - by apply dec_stable.
Qed.

(** What [parse_snak] does with a snak it keeps, once the entity of its
    property is loaded and its value read. *)
Lemma parse_snak_value snak st pe st1 value :
  displayable snak →
  Entity remote (property snak) false st = (Ok pe, st1) →
  datavalue snak = Some value →
  parse_snak remote snak st =
    if decide (datatype snak = WIKIBASE_ITEM_DATA_TYPE) then
      match subscript value "id" with
      | Ok i =>
          match Entity remote i false st1 with
          | (Ok item, st2) =>
              (Ok (Some (of_optional (label pe), of_optional (label item))), st2)
          | (Err e, st2) => (Err e, st2)
          end
      | Err e => (Err e, st1)
      end
    else if decide (datatype snak = "time") then
      match subscript value "time" with
      | Ok time => (Ok (Some (of_optional (label pe), PStr time)), st1)
      | Err e => (Err e, st1)
      end
    else (Ok (Some (of_optional (label pe), value)), st1).
Proof.
  intros [Hin Hval] Hprop Hdv. unfold parse_snak.
  rewrite decide_False by (intros H; by apply H).
  rewrite decide_False by (intros H; by apply H).
  unfold bind at 1. rewrite Hprop.
  unfold bind at 1, lift, datavalue_value. rewrite Hdv.
  unfold bind at 1.
  destruct (decide (datatype snak = WIKIBASE_ITEM_DATA_TYPE)) as [Hitem|Hitem].
  - unfold bind at 1, lift. destruct (subscript value "id") as [i|e]; [|done].
    unfold bind at 1. destruct (Entity remote i false st1) as [[item|e] st2]; done.
  - destruct (decide (datatype snak = "amount")) as [Hamount|_].
    + exfalso. rewrite Hamount in Hin. revert Hin. by apply (bool_decide_unpack _).
    + destruct (decide (datatype snak = "time")); [|done].
      unfold bind at 1, lift. destruct (subscript value "time"); done.
Qed.

Lemma parse_snak_displayable snak st r st' :
  displayable snak → parse_snak remote snak st = (r, st') → r ≠ Ok None.
Proof.
  intros Hd. pose proof Hd as [Hin Hval]. unfold parse_snak.
  rewrite decide_False by (intros H; by apply H).
  rewrite decide_False by (intros H; by apply H).
  unfold bind at 1.
  destruct (Entity remote (property snak) false st) as [[pe|e] st1];
    [|by intros [= <- _]].
  unfold bind at 1, lift.
  destruct (datavalue_value snak) as [value|e]; [|by intros [= <- _]].
  unfold bind at 1.
  match goal with |- context [(if ?c then ?x else ?y) st1] =>
    destruct ((if c then x else y) st1) as [[v|e] st2] end;
    unfold ret; by intros [= <- _].
Qed.

Lemma parse_snak_some snak st t st' :
  parse_snak remote snak st = (Ok (Some t), st') → displayable snak.
Proof.
  intros Hrun. destruct (decide (displayable snak)) as [|Hnot]; [done|].
  rewrite parse_snak_not_displayable in Hrun by done. discriminate.
Qed.

Lemma parse_snak_none snak st st' :
  parse_snak remote snak st = (Ok None, st') → ¬ displayable snak.
Proof.
  intros Hrun Hd. by apply (parse_snak_displayable _ _ _ _ Hd Hrun).
Qed.

End NormalizerFacts.

(** C7: [parse_snak] returns [None] exactly for the snaks whose datatype is
    not in [INTERESTING_DATA_TYPES] or whose snaktype is not "value"; for
    such a snak it returns without an exception and without an effect, a
    statement with such a mainsnak yields nothing, and such a qualifier
    adds nothing to the qualifiers of its statement. *)
Theorem parse_snak_none_iff remote snak st :
  (fst (parse_snak remote snak st) = Ok None ↔
     datatype snak ∉ INTERESTING_DATA_TYPES ∨ snaktype snak ≠ "value") ∧
  (datatype snak ∉ INTERESTING_DATA_TYPES ∨ snaktype snak ≠ "value" →
     parse_snak remote snak st = (Ok None, st) ∧
     (∀ claim rest yielded, mainsnak claim = snak →
        claims_loop remote (claim :: rest) yielded st
        = claims_loop remote rest yielded st) ∧
     (∀ rest acc,
        claims_snaks remote (snak :: rest) acc st
        = claims_snaks remote rest acc st)).
Proof.
  assert (Hnd : datatype snak ∉ INTERESTING_DATA_TYPES ∨ snaktype snak ≠ "value"
                ↔ ¬ displayable snak).
  { unfold displayable. split.
    - intros [H|H] [H1 H2]; by apply H.
    - intros H. destruct (decide (datatype snak ∈ INTERESTING_DATA_TYPES)); [|by left].
      right. intros Hv. by apply H. }
  split.
  - rewrite Hnd. split.
    + destruct (parse_snak remote snak st) as [r st'] eqn:Hrun. simpl.
      intros ->. by eapply parse_snak_none.
    + intros H. by rewrite parse_snak_not_displayable.
  - intros H%Hnd. pose proof (parse_snak_not_displayable remote snak st H) as Hp.
    split; [done|]. split.
    + intros claim rest yielded <-. simpl.
      unfold bind at 1, claims_claim, bind at 1. by rewrite Hp.
    + intros rest acc. simpl. unfold bind at 1. by rewrite Hp.
Qed.

Lemma parse_snak_none_iff_witness :
  (datatype external_id_snak ∉ INTERESTING_DATA_TYPES
   ∨ snaktype external_id_snak ≠ "value") ∧
  parse_snak wikidata external_id_snak empty_state = (Ok None, empty_state).
Proof.
  assert (H : datatype external_id_snak ∉ INTERESTING_DATA_TYPES
              ∨ snaktype external_id_snak ≠ "value").
  { left. apply (bool_decide_unpack _). vm_compute. exact I. }
  split; [exact H|].
  apply (parse_snak_none_iff wikidata external_id_snak empty_state). exact H.
Defined.

(** C8 on the code: a quantity snak comes back with the whole record of its
    value, not with the amount, because the branch that reads the amount
    tests the datatype against "amount", which [INTERESTING_DATA_TYPES]
    does not contain. *)
Theorem parse_snak_quantity_returns_record :
  fst (parse_snak wikidata population_snak empty_state)
  = Ok (Some (PStr "population",
              PDict [("amount", "+1380004385"); ("unit", "1")])) ∧
  fst (parse_snak wikidata population_snak empty_state)
  ≠ Ok (Some (PStr "population", PStr "+1380004385")).
Proof.
  assert (H : fst (parse_snak wikidata population_snak empty_state)
    = Ok (Some (PStr "population",
                PDict [("amount", "+1380004385"); ("unit", "1")]))).
  { vm_compute. reflexivity. }
  split; [exact H|]. rewrite H. discriminate.
Qed.

Example parse_snak_instance_of_human :
  fst (parse_snak wikidata instance_of_human empty_state)
  = Ok (Some (PStr "instance of", PStr "human")).
Proof. vm_compute. reflexivity. Qed.

(** * The claims accessor *)

Section ClaimsFacts.

Variable remote : list string → option (list EntityDoc).

Lemma claims_snaks_ok snaks acc st out st' :
  claims_snaks remote snaks acc st = (Ok out, st') →
  ∃ new, out = acc ++ new ∧
    Forall2 (normalizes remote) (filter displayable snaks) new.
Proof.
  revert acc st. induction snaks as [|snak snaks IH]; intros acc st; simpl.
  - unfold ret. intros [= <- _]. exists []. by rewrite app_nil_r.
  - unfold bind at 1.
    destruct (parse_snak remote snak st) as [[[t|]|e] st1] eqn:Hp; [| |done].
    + intros (new & -> & HF)%IH. exists (t :: new).
      rewrite <- app_assoc. split; [done|].
      rewrite filter_cons_True by (by eapply parse_snak_some).
      constructor; [by exists st, st1 | done].
    + intros (new & -> & HF)%IH. exists new. split; [done|].
      by rewrite filter_cons_False by (by eapply parse_snak_none).
Qed.

Lemma claims_qualifier_ids_ok claim ids acc st out st' :
  claims_qualifier_ids remote claim ids acc st = (Ok out, st') →
  ∃ snaks new,
    ordered_snaks (qualifiers claim) ids = Some snaks ∧
    out = acc ++ new ∧
    Forall2 (normalizes remote) (filter displayable snaks) new.
Proof.
  revert acc st. induction ids as [|i ids IH]; intros acc st; simpl.
  - unfold ret. intros [= <- _]. exists [], []. by rewrite app_nil_r.
  - destruct (qualifiers claim) as [d|]; [|done].
    destruct (dict_get d i) as [snaks|]; [|done].
    unfold bind at 1.
    destruct (claims_snaks remote snaks acc st) as [[acc1|e] st1] eqn:Hs; [|done].
    apply claims_snaks_ok in Hs as (new1 & -> & HF1).
    intros (later & new2 & -> & -> & HF2)%IH.
    exists (snaks ++ later), (new1 ++ new2).
    split; [done|]. split; [by rewrite app_assoc|].
    rewrite filter_app. by apply Forall2_app.
Qed.

Lemma claims_claim_ok claim st y st' :
  claims_claim remote claim st = (Ok y, st') →
  match y with
  | Some t => displayable (mainsnak claim) ∧ renders remote claim t
  | None => ¬ displayable (mainsnak claim)
  end.
Proof.
  unfold claims_claim, bind at 1.
  destruct (parse_snak remote (mainsnak claim) st) as [[[[p v]|]|e] st1] eqn:Hp;
    [| |done].
  - unfold bind at 1.
    destruct (claims_qualifier_ids remote claim _ [] st1) as [[qs|e] st2] eqn:Hq;
      [|done].
    pose proof (claims_qualifier_ids_ok _ _ _ _ _ _ Hq)
      as (snaks & new & Hsn & Hnew & HF).
    simpl in Hnew. subst qs.
    assert (Hr : renders remote claim
      match new with [] => Pair p v | _ :: _ => Triple p v new end).
    { by exists p, v, snaks, new, st, st1, st2. }
    destruct new; unfold ret; intros [= <- _];
      (split; [by eapply parse_snak_some | done]).
  - unfold ret. intros [= <- _]. by eapply parse_snak_none.
Qed.

Lemma claims_loop_ok cl yielded st out st' :
  claims_loop remote cl yielded st = (Ok out, st') →
  ∃ new, out = yielded ++ new ∧
    Forall2 (renders remote) (filter (λ c, displayable (mainsnak c)) cl) new.
Proof.
  revert yielded st. induction cl as [|claim cl IH]; intros yielded st; simpl.
  - unfold ret. intros [= <- _]. exists []. by rewrite app_nil_r.
  - unfold bind at 1.
    destruct (claims_claim remote claim st) as [[[t|]|e] st1] eqn:Hc; [| |done];
      apply claims_claim_ok in Hc.
    + destruct Hc as [Hd Hr].
      intros (new & -> & HF)%IH. exists (t :: new).
      rewrite <- app_assoc. split; [done|].
      rewrite filter_cons_True by done. by constructor.
    + intros (new & -> & HF)%IH. exists new. split; [done|].
      by rewrite filter_cons_False by done.
Qed.

Lemma normalized_app snaks1 snaks2 st qs1 st1 qs2 st2 :
  normalized remote snaks1 st qs1 st1 →
  normalized remote snaks2 st1 qs2 st2 →
  normalized remote (snaks1 ++ snaks2) st (qs1 ++ qs2) st2.
Proof.
  induction 1 as [|snak snaks st q st1' qs st2' Hp _ IH
                  |snak snaks st st1' qs st2' Hp _ IH]; intros H2; cbn [app].
  - done.
  - eapply normalized_kept; [exact Hp | by apply IH].
  - eapply normalized_dropped; [exact Hp | by apply IH].
Qed.

Lemma normalized_app_inv snaks1 snaks2 st qs st2 :
  normalized remote (snaks1 ++ snaks2) st qs st2 →
  ∃ qs1 qs2 st1,
    qs = qs1 ++ qs2 ∧
    normalized remote snaks1 st qs1 st1 ∧
    normalized remote snaks2 st1 qs2 st2.
Proof.
  revert st qs. induction snaks1 as [|snak snaks1 IH]; intros st qs; cbn [app].
  - intros H. exists [], qs, st. split; [done|]. split; [constructor | done].
  - intros H. inversion H as [|? ? ? q st1 qs' ? Hp Hrest
                               |? ? ? st1 qs' ? Hp Hrest]; subst.
    + apply IH in Hrest as (qs1 & qs2 & st1' & -> & H1 & H2).
      exists (q :: qs1), qs2, st1'. split; [done|].
      split; [by eapply normalized_kept | done].
    + apply IH in Hrest as (qs1 & qs2 & st1' & -> & H1 & H2).
      exists qs1, qs2, st1'. split; [done|].
      split; [by eapply normalized_dropped | done].
Qed.


Lemma claims_snaks_normalized snaks acc st out st' :
  claims_snaks remote snaks acc st = (Ok out, st') ↔
  ∃ qs, out = acc ++ qs ∧ normalized remote snaks st qs st'.
Proof.
  split.
  - revert acc st. induction snaks as [|snak snaks IH]; intros acc st;
      cbn [claims_snaks].
    + unfold ret. intros [= <- <-]. exists []. rewrite app_nil_r.
      split; [done | constructor].
    + unfold bind at 1.
      destruct (parse_snak remote snak st) as [[[t|]|e] st1] eqn:Hp; [| |done].
      * intros (qs & -> & Hn)%IH. exists (t :: qs).
        rewrite <- app_assoc. split; [done|]. by eapply normalized_kept.
      * intros (qs & -> & Hn)%IH. exists qs. split; [done|].
        by eapply normalized_dropped.
  - intros (qs & -> & Hn). revert acc.
    induction Hn as [|snak snaks st q st1 qs st2 Hp _ IH
                     |snak snaks st st1 qs st2 Hp _ IH]; intros acc;
      cbn [claims_snaks].
    + by rewrite app_nil_r.
    + unfold bind at 1. rewrite Hp, IH, <- app_assoc. done.
    + unfold bind at 1. rewrite Hp. apply IH.
Qed.

Lemma claims_qualifier_ids_normalized claim ids acc st out st' :
  claims_qualifier_ids remote claim ids acc st = (Ok out, st') ↔
  ∃ snaks qs,
    ordered_snaks (qualifiers claim) ids = Some snaks ∧
    out = acc ++ qs ∧
    normalized remote snaks st qs st'.
Proof.
  split.
  - revert acc st. induction ids as [|i ids IH]; intros acc st;
      cbn [claims_qualifier_ids ordered_snaks].
    + unfold ret. intros [= <- <-]. exists [], []. rewrite app_nil_r.
      split; [done|]. split; [done | constructor].
    + destruct (qualifiers claim) as [d|]; [|done].
      destruct (dict_get d i) as [snaks|]; [|done].
      unfold bind at 1.
      destruct (claims_snaks remote snaks acc st) as [[acc1|e] st1] eqn:Hs;
        [|done].
      apply claims_snaks_normalized in Hs as (qs1 & -> & Hn1).
      intros (later & qs2 & Hlater & -> & Hn2)%IH.
      exists (snaks ++ later), (qs1 ++ qs2). rewrite Hlater.
      split; [done|]. split; [by rewrite app_assoc|].
      by eapply normalized_app.
  - revert acc st out. induction ids as [|i ids IH]; intros acc st out;
      cbn [claims_qualifier_ids ordered_snaks].
    + intros (snaks & qs & [= <-] & -> & Hn). inversion Hn; subst.
      by rewrite app_nil_r.
    + intros (snaks & qs & Hsn & -> & Hn).
      destruct (qualifiers claim) as [d|]; [|done].
      destruct (dict_get d i) as [first|]; [|done].
      destruct (ordered_snaks (Some d) ids) as [later|] eqn:Hlater; [|done].
      injection Hsn as <-.
      apply normalized_app_inv in Hn as (qs1 & qs2 & st1 & -> & Hn1 & Hn2).
      unfold bind at 1.
      assert (Hs : claims_snaks remote first acc st = (Ok (acc ++ qs1), st1)).
      { apply claims_snaks_normalized. by exists qs1. }
      rewrite Hs, app_assoc. apply IH. by exists later, qs2.
Qed.

Lemma claims_loop_yields cl yielded st out st' :
  claims_loop remote cl yielded st = (Ok out, st') ↔
  ∃ new, out = yielded ++ new ∧ yields remote cl st new st'.
Proof.
  split.
  - revert yielded st. induction cl as [|claim cl IH]; intros yielded st;
      cbn [claims_loop].
    + unfold ret. intros [= <- <-]. exists []. rewrite app_nil_r.
      split; [done | constructor].
    + unfold bind at 1, claims_claim, bind at 1.
      destruct (parse_snak remote (mainsnak claim) st)
        as [[[[p v]|]|e] st1] eqn:Hp; [| |done].
      * unfold bind at 1.
        destruct (claims_qualifier_ids remote claim _ [] st1)
          as [[qs|e] st2] eqn:Hq; [|done].
        apply claims_qualifier_ids_normalized in Hq
          as (snaks & qs' & Hsn & Hqs & Hn).
        cbn [app] in Hqs. subst qs'.
        assert (Hnext : claims_loop remote cl (yielded ++ [tuple_of p v qs]) st2
                        = (Ok out, st') → 
                        ∃ new, out = yielded ++ new ∧
                               yields remote (claim :: cl) st new st').
        { intros (new & -> & Hy)%IH. exists (tuple_of p v qs :: new).
          rewrite <- app_assoc. split; [done|]. by eapply yields_kept. }
        by destruct qs.
      * unfold ret. intros (new & -> & Hy)%IH. exists new. split; [done|].
        by eapply yields_skipped.
  - intros (new & -> & Hy). revert yielded.
    induction Hy as [|claim rest st st1 out st2 Hp _ IH
                     |claim rest st p v st1 snaks qs st2 out st3 Hp Hsn Hn _ IH];
      intros yielded; cbn [claims_loop].
    + by rewrite app_nil_r.
    + unfold bind at 1, claims_claim, bind at 1. rewrite Hp. unfold ret.
      apply IH.
    + unfold bind at 1, claims_claim, bind at 1. rewrite Hp.
      assert (Hq : claims_qualifier_ids remote claim
                     (default [] (qualifiers_order claim)) [] st1
                   = (Ok qs, st2)).
      { apply claims_qualifier_ids_normalized. by exists snaks, qs. }
      unfold bind at 1. rewrite Hq.
      specialize (IH (yielded ++ [tuple_of p v qs])).
      rewrite <- app_assoc in IH. by destruct qs.
Qed.



End ClaimsFacts.



(** The tuples are those of the run: no other labels can be yielded. *)
Example yields_pins_the_labels st' :
  ¬ yields wikidata [plain instance_of_human] empty_state
      [Pair (PStr "wrong") (PStr "labels")] st'.
Proof.
  intros Hy.
  assert (Hrun : claims_loop wikidata [plain instance_of_human] [] empty_state
                 = (Ok [Pair (PStr "wrong") (PStr "labels")], st')).
  { apply claims_loop_yields. by eexists. }
  apply (f_equal fst) in Hrun. vm_compute in Hrun. discriminate Hrun.
Qed.

Example claims_nehru :
  fst (claims wikidata nehru empty_state)
  = Ok [Pair (PStr "instance of") (PStr "human");
        Triple (PStr "position held") (PStr "Prime Minister of India")
          [(PStr "start time", PStr "+1947-08-15T00:00:00Z")]].
Proof. vm_compute. reflexivity. Qed.

(** * The dependency extractor *)

Lemma load_dependencies_qualifiers_spec qs deps :
  match load_dependencies_qualifiers qs deps with
  | Ok out =>
      out = deps ++ concat (map snak_identifiers (filter (λ q, snaktype q = "value") qs)) ∧
      Forall has_reference (filter (λ q, snaktype q = "value") qs)
  | Err _ => ¬ Forall has_reference (filter (λ q, snaktype q = "value") qs)
  end.
Proof.
  revert deps. induction qs as [|q qs IH]; intros deps; simpl.
  - rewrite app_nil_r. split; [done | constructor].
  - destruct (decide (snaktype q ≠ "value")) as [Hne|Hv].
    + rewrite filter_cons_False by done. apply IH.
    + apply dec_stable in Hv. rewrite filter_cons_True by done.
      simpl. unfold snak_identifiers at 1.
      destruct (decide (datatype q = WIKIBASE_ITEM_DATA_TYPE)) as [Hitem|Hitem].
      * assert (Href : has_reference q ↔ ∃ i, referenced_id q = Ok i).
        { unfold has_reference. split; [by intros H; apply H | by intros H _]. }
        unfold referenced_id in *.
        destruct (datavalue_value q) as [value|e]; simpl in *.
        -- destruct (subscript value "id") as [i|e]; simpl.
           ++ specialize (IH ((deps ++ [property q]) ++ [i])).
              destruct (load_dependencies_qualifiers qs _) as [out|e].
              ** destruct IH as [-> HF]. split.
                 { by rewrite <- !app_assoc. }
                 constructor; [apply Href; eauto | done].
              ** intros HF. apply Forall_cons in HF as [_ HF]. by apply IH.
           ++ intros HF. apply Forall_cons in HF as [HF _].
              apply Href in HF as [i Hi]. discriminate.
        -- intros HF. apply Forall_cons in HF as [HF _].
           apply Href in HF as [i Hi]. discriminate.
      * specialize (IH (deps ++ [property q])).
        destruct (load_dependencies_qualifiers qs _) as [out|e].
        -- destruct IH as [-> HF]. split.
           { by rewrite <- !app_assoc. }
           constructor; [by intros ? | done].
        -- intros HF. apply Forall_cons in HF as [_ HF]. by apply IH.
Qed.

Lemma load_dependencies_claim_spec claim deps :
  match load_dependencies_claim claim deps with
  | Ok out => out = deps ++ statement_dependencies claim ∧ extractable claim
  | Err _ => ¬ extractable claim
  end.
Proof.
  unfold load_dependencies_claim, statement_dependencies, extractable.
  destruct (decide (datatype (mainsnak claim) ∉ INTERESTING_DATA_TYPES)) as [Hni|Hin].
  - destruct (decide (datatype (mainsnak claim) ∈ INTERESTING_DATA_TYPES)) as [|_];
      [done|].
    rewrite app_nil_r. split; [done | by intros].
  - apply dec_stable in Hin.
    destruct (decide (datatype (mainsnak claim) ∈ INTERESTING_DATA_TYPES)) as [_|];
      [|done].
    unfold snak_identifiers at 1.
    fold (qualifier_snaks claim).
    destruct (decide (datatype (mainsnak claim) = WIKIBASE_ITEM_DATA_TYPE))
      as [Hitem|Hitem].
    + assert (Href : has_reference (mainsnak claim)
                     ↔ ∃ i, referenced_id (mainsnak claim) = Ok i).
      { unfold has_reference. split; [by intros H; apply H | by intros H _]. }
      unfold referenced_id in *.
      destruct (datavalue_value (mainsnak claim)) as [value|e]; simpl in *.
      * destruct (subscript value "id") as [i|e]; simpl.
        -- pose proof (load_dependencies_qualifiers_spec (qualifier_snaks claim)
                         ((deps ++ [property (mainsnak claim)]) ++ [i])) as Hq.
           destruct (load_dependencies_qualifiers _ _) as [out|e].
           ++ destruct Hq as [-> HF]. split; [by rewrite <- !app_assoc|].
              intros _. split; [apply Href; eauto | done].
           ++ intros H. destruct (H Hin) as [_ HF]. by apply Hq.
        -- intros H. destruct (H Hin) as [HF _].
           apply Href in HF as [i Hi]. discriminate.
      * intros H. destruct (H Hin) as [HF _].
        apply Href in HF as [i Hi]. discriminate.
    + simpl.
      pose proof (load_dependencies_qualifiers_spec (qualifier_snaks claim)
                    (deps ++ [property (mainsnak claim)])) as Hq.
      destruct (load_dependencies_qualifiers _ _) as [out|e].
      * destruct Hq as [-> HF]. split; [by rewrite <- !app_assoc|].
        intros _. split; [by intros ? | done].
      * intros H. destruct (H Hin) as [_ HF]. by apply Hq.
Qed.

Lemma load_dependencies_properties_spec properties deps :
  match load_dependencies_properties properties deps with
  | Ok out =>
      out = deps ++ concat (map statement_dependencies properties) ∧
      Forall extractable properties
  | Err _ => ¬ Forall extractable properties
  end.
Proof.
  revert deps. induction properties as [|claim properties IH]; intros deps; simpl.
  - rewrite app_nil_r. split; [done | constructor].
  - pose proof (load_dependencies_claim_spec claim deps) as Hc.
    destruct (load_dependencies_claim claim deps) as [deps1|e]; simpl.
    + destruct Hc as [-> Hext]. specialize (IH (deps ++ statement_dependencies claim)).
      destruct (load_dependencies_properties properties _) as [out|e].
      * destruct IH as [-> HF]. split; [by rewrite <- app_assoc | by constructor].
      * intros HF. apply Forall_cons in HF as [_ HF]. by apply IH.
    + intros HF. apply Forall_cons in HF as [HF _]. by apply Hc.
Qed.

Lemma load_dependencies_groups_spec groups deps :
  match load_dependencies_groups groups deps with
  | Ok out =>
      out = deps ++ concat (map statement_dependencies (concat groups)) ∧
      Forall extractable (concat groups)
  | Err _ => ¬ Forall extractable (concat groups)
  end.
Proof.
  revert deps. induction groups as [|properties groups IH]; intros deps; simpl.
  - rewrite app_nil_r. split; [done | constructor].
  - pose proof (load_dependencies_properties_spec properties deps) as Hp.
    destruct (load_dependencies_properties properties deps) as [deps1|e]; simpl.
    + destruct Hp as [-> Hext].
      specialize (IH (deps ++ concat (map statement_dependencies properties))).
      destruct (load_dependencies_groups groups _) as [out|e].
      * destruct IH as [-> HF]. split.
        -- by rewrite map_app, concat_app, <- app_assoc.
        -- by apply Forall_app.
      * intros HF. apply Forall_app in HF as [_ HF]. by apply IH.
    + intros HF. apply Forall_app in HF as [HF _]. by apply Hp.
Qed.

Lemma dependencies_of_spec data :
  match dependencies_of data with
  | Ok deps =>
      deps = document_dependencies data ∧
      Forall extractable (concat (dict_values (e_claims data)))
  | Err _ => ¬ Forall extractable (concat (dict_values (e_claims data)))
  end.
Proof.
  unfold dependencies_of, document_dependencies.
  pose proof (load_dependencies_groups_spec (dict_values (e_claims data)) []) as H.
  destruct (load_dependencies_groups _ _); [|done]. by destruct H as [-> ?].
Qed.

(** C6 (as the code has it): when the extraction returns, the list that
    [load_dependencies] hands to [get_entities], in one call, is, over the
    statements of all claim groups in document order, the property of the
    mainsnak (and the identifier it refers to, for the item datatype)
    followed by the same for every qualifier snak with snaktype "value",
    for the statements whose mainsnak has an interesting datatype, and
    nothing for the others; it returns exactly when every item-valued snak
    it reads carries an identifier. *)
Theorem load_dependencies_collects remote data st :
  (∀ deps, dependencies_of data = Ok deps → deps = document_dependencies data) ∧
  (Forall extractable (concat (dict_values (e_claims data)))
   ↔ ∃ deps, dependencies_of data = Ok deps) ∧
  load_dependencies remote data st =
    match dependencies_of data with
    | Ok deps =>
        match get_entities remote deps st with
        | (Ok _, st') => (Ok tt, st')
        | (Err e, st') => (Err e, st')
        end
    | Err e => (Err e, st)
    end.
Proof.
  pose proof (dependencies_of_spec data) as H.
  split; [|split].
  - intros deps Heq. rewrite Heq in H. by destruct H.
  - destruct (dependencies_of data) as [deps|e].
    + destruct H as [_ H]. split; [eauto | done].
    + split; [done | by intros [deps Hd]].
  - unfold load_dependencies, bind at 1, lift.
    destruct (dependencies_of data) as [deps|e]; [|done].
    unfold bind. by destruct (get_entities remote deps st) as [[entities|e] st'].
Qed.

Lemma load_dependencies_collects_witness :
  dependencies_of nehru = Ok ["P31"; "Q5"; "P39"; "Q192711"; "P580"] ∧
  ["P31"; "Q5"; "P39"; "Q192711"; "P580"] = document_dependencies nehru.
Proof.
  assert (H : dependencies_of nehru = Ok ["P31"; "Q5"; "P39"; "Q192711"; "P580"]).
  { vm_compute. reflexivity. }
  split; [exact H|].
  exact (proj1 (load_dependencies_collects echo_remote nehru empty_state) _ H).
Defined.

(** C6, as stated, fails: two statements of one property give its
    identifier twice, and the value qualifier of a statement whose mainsnak
    has an uninteresting datatype gives nothing. *)
Lemma load_dependencies_repeats_and_skips :
  dependencies_of politician
  = Ok ["P39"; "Q192711"; "P580"; "P39"; "Q192711"; "P580"] ∧
  ¬ NoDup ["P39"; "Q192711"; "P580"; "P39"; "Q192711"; "P580"] ∧
  ("P1810" ∉ ["P39"; "Q192711"; "P580"; "P39"; "Q192711"; "P580"]) ∧
  (∃ claim q, claim ∈ concat (dict_values (e_claims politician)) ∧
     q ∈ qualifier_snaks claim ∧ snaktype q = "value" ∧ property q = "P1810") ∧
  requests (snd (load_dependencies echo_remote politician empty_state))
  = [["P39"; "Q192711"; "P580"; "P39"; "Q192711"; "P580"]].
Proof.
  split; [vm_compute; reflexivity|].
  split. { apply (bool_decide_unpack _). vm_compute. exact I. }
  split. { apply (bool_decide_unpack _). vm_compute. exact I. }
  split; [|vm_compute; reflexivity].
  exists viaf, named_as. split; [|split; [|done]].
  - simpl. right. right. by left.
  - by left.
Qed.

(** C10: a document of the data model whose item-valued mainsnak has
    snaktype "novalue", hence no datavalue, makes the extraction raise
    the key-lookup error: the mainsnak's datavalue is read whatever its
    snaktype, while a qualifier whose snaktype is not "value" is skipped
    before anything else of it is read. *)
Theorem load_dependencies_mainsnak_key_error :
  (∃ data, well_formed data ∧
     dependencies_of data = Err (KeyError "datavalue") ∧
     ∀ remote st, load_dependencies remote data st = (Err (KeyError "datavalue"), st)) ∧
  (∀ claim deps,
     datatype (mainsnak claim) = WIKIBASE_ITEM_DATA_TYPE →
     datavalue (mainsnak claim) = None →
     load_dependencies_claim claim deps = Err (KeyError "datavalue")) ∧
  (∀ q qs deps,
     snaktype q ≠ "value" →
     load_dependencies_qualifiers (q :: qs) deps
     = load_dependencies_qualifiers qs deps).
Proof.
  split; [|split].
  - exists childless. split.
    { apply (bool_decide_unpack _). vm_compute. exact I. }
    split; [vm_compute; reflexivity|].
    intros remote st. unfold load_dependencies, bind, lift.
    replace (dependencies_of childless) with (@Err (list string) (KeyError "datavalue"))
      by (vm_compute; reflexivity).
    reflexivity.
  - intros claim deps Hitem Hnone. unfold load_dependencies_claim.
    rewrite Hitem.
    destruct (decide (WIKIBASE_ITEM_DATA_TYPE ∉ INTERESTING_DATA_TYPES)) as [Hni|_].
    { exfalso. apply Hni. apply (bool_decide_unpack _). vm_compute. exact I. }
    rewrite decide_True by done.
    unfold datavalue_value. by rewrite Hnone.
  - intros q qs deps Hne. simpl. by rewrite decide_True.
Qed.

Lemma load_dependencies_mainsnak_key_error_witness :
  datatype (mainsnak (plain no_child)) = WIKIBASE_ITEM_DATA_TYPE ∧
  datavalue (mainsnak (plain no_child)) = None ∧
  load_dependencies_claim (plain no_child) [] = Err (KeyError "datavalue").
Proof.
  split; [reflexivity|]. split; [reflexivity|].
  apply (proj1 (proj2 load_dependencies_mainsnak_key_error)); reflexivity.
Defined.

Example dependencies_of_childless_in_qualifier :
  well_formed childless_in_qualifier ∧
  dependencies_of childless_in_qualifier = Ok ["P31"; "Q5"].
Proof.
  split; [apply (bool_decide_unpack _); vm_compute; exact I|].
  vm_compute. reflexivity.
Qed.

(** * Rendering entities that refer to each other *)

Section RenderingCost.

Variable remote : list string → option (list EntityDoc).

Lemma get_entities_requests ids st r st' :
  get_entities remote ids st = (r, st') →
  length (requests st') ≤ length (requests st) + length (batches (missing st ids)).
Proof.
  rewrite get_entities_unfold, fetch_missing_unfold.
  destruct (star_args (fetch_batch remote) _ st) as [[args|e] st1] eqn:Hrun;
    apply star_args_fetch_batch_spec in Hrun as (_ & Hrun).
  - destruct Hrun as (_ & Hreq & _). unfold get_local_entities.
    intros ->%get_local_entities_loop_state.
    rewrite Hreq, length_app. lia.
  - destruct Hrun as (n & Hn & Hreq). intros [= _ <-].
    rewrite Hreq, length_app, length_take. lia.
Qed.

Lemma Entity_requests entity_id st r st' :
  Entity remote entity_id false st = (r, st') →
  length (requests st') ≤ length (requests st) + 1.
Proof.
  unfold Entity, load_entity, bind at 1, bind at 1.
  destruct (get_entities remote [entity_id] st) as [[entities|e] st1] eqn:Hget;
    apply get_entities_requests in Hget.
  - assert (Hone : length (batches (missing st [entity_id])) ≤ 1).
    { rewrite batches_length.
      assert (length (missing st [entity_id]) ≤ 1)
        by (unfold missing; apply (length_filter _ [entity_id])).
      apply Nat.Div0.div_le_upper_bound. lia. }
    destruct entities as [|entity ?]; unfold raise, ret; intros [= _ <-]; lia.
  - assert (Hone : length (batches (missing st [entity_id])) ≤ 1).
    { rewrite batches_length.
      assert (length (missing st [entity_id]) ≤ 1)
        by (unfold missing; apply (length_filter _ [entity_id])).
      apply Nat.Div0.div_le_upper_bound. lia. }
    intros [= _ <-]. lia.
Qed.

Lemma parse_snak_requests snak st r st' :
  parse_snak remote snak st = (r, st') →
  length (requests st') ≤ length (requests st) + 2.
Proof.
  unfold parse_snak.
  destruct (decide (datatype snak ∉ INTERESTING_DATA_TYPES)) as [_|_];
    [unfold ret; intros [= _ <-]; lia|].
  destruct (decide (snaktype snak ≠ "value")) as [_|_];
    [unfold ret; intros [= _ <-]; lia|].
  unfold bind at 1.
  destruct (Entity remote (property snak) false st) as [[pe|e] st1] eqn:H1;
    apply Entity_requests in H1; [|intros [= _ <-]; lia].
  unfold bind at 1, lift.
  destruct (datavalue_value snak) as [value|e]; [|intros [= _ <-]; lia].
  unfold bind at 1.
  destruct (decide (datatype snak = WIKIBASE_ITEM_DATA_TYPE)) as [_|_].
  - unfold bind at 1, lift.
    destruct (subscript value "id") as [i|e]; [|intros [= _ <-]; lia].
    unfold bind at 1.
    destruct (Entity remote i false st1) as [[item|e] st2] eqn:H2;
      apply Entity_requests in H2; unfold ret; intros [= _ <-]; lia.
  - destruct (decide (datatype snak = "amount")) as [_|_].
    + unfold bind at 1, lift.
      destruct (subscript value "amount"); unfold ret; intros [= _ <-]; lia.
    + destruct (decide (datatype snak = "time")) as [_|_].
      * unfold bind at 1, lift.
        destruct (subscript value "time"); unfold ret; intros [= _ <-]; lia.
      * unfold ret. intros [= _ <-]. lia.
Qed.

Lemma claims_snaks_requests snaks acc st r st' :
  claims_snaks remote snaks acc st = (r, st') →
  length (requests st') ≤ length (requests st) + 2 * length snaks.
Proof.
  revert acc st. induction snaks as [|snak snaks IH]; intros acc st; simpl.
  - unfold ret. intros [= _ <-]. lia.
  - unfold bind at 1.
    destruct (parse_snak remote snak st) as [[[t|]|e] st1] eqn:Hp;
      apply parse_snak_requests in Hp.
    + intros H%IH. lia.
    + intros H%IH. lia.
    + intros [= _ <-]. lia.
Qed.

Lemma claims_qualifier_ids_requests claim ids acc st r st' :
  claims_qualifier_ids remote claim ids acc st = (r, st') →
  length (requests st')
  ≤ length (requests st) + 2 * visited_qualifiers (qualifiers claim) ids.
Proof.
  revert acc st. induction ids as [|i ids IH]; intros acc st; simpl.
  - unfold ret. intros [= _ <-]. lia.
  - destruct (qualifiers claim) as [d|]; simpl;
      [|unfold raise; intros [= _ <-]; lia].
    destruct (dict_get d i) as [snaks|]; simpl;
      [|unfold raise; intros [= _ <-]; lia].
    unfold bind at 1.
    destruct (claims_snaks remote snaks acc st) as [[acc1|e] st1] eqn:Hs;
      apply claims_snaks_requests in Hs.
    + intros H%IH. simpl in H. lia.
    + intros [= _ <-]. lia.
Qed.

Lemma claims_claim_requests claim st r st' :
  claims_claim remote claim st = (r, st') →
  length (requests st') ≤ length (requests st) + 2 * visited_snaks claim.
Proof.
  unfold claims_claim, visited_snaks, bind at 1.
  destruct (parse_snak remote (mainsnak claim) st) as [[[[p v]|]|e] st1] eqn:Hp;
    apply parse_snak_requests in Hp.
  - unfold bind at 1.
    destruct (claims_qualifier_ids remote claim _ [] st1) as [[qs|e] st2] eqn:Hq;
      apply claims_qualifier_ids_requests in Hq.
    + destruct qs; unfold ret; intros [= _ <-]; lia.
    + intros [= _ <-]. lia.
  - unfold ret. intros [= _ <-]. lia.
  - intros [= _ <-]. lia.
Qed.

Lemma claims_loop_requests cl yielded st r st' :
  claims_loop remote cl yielded st = (r, st') →
  length (requests st')
  ≤ length (requests st) + 2 * sum_list (map visited_snaks cl).
Proof.
  revert yielded st. induction cl as [|claim cl IH]; intros yielded st; simpl.
  - unfold ret. intros [= _ <-]. lia.
  - unfold bind at 1.
    destruct (claims_claim remote claim st) as [[[t|]|e] st1] eqn:Hc;
      apply claims_claim_requests in Hc.
    + intros H%IH. unfold visited_snaks in *. lia.
    + intros H%IH. unfold visited_snaks in *. lia.
    + intros [= _ <-]. unfold visited_snaks in *. lia.
Qed.

(** *** The frames of a run *)

Lemma runs_within_weaken {A} st (t : Stack.T A) c K C K' C' :
  runs_within st t c K C → K ≤ K' → C ≤ C' → runs_within st t c K' C'.
Proof. intros (? & ? & ?) ? ?. split; [done|]. split; lia. Qed.

Lemma runs_within_ret {A} st (a : A) :
  runs_within st (Stack.ret a) (ret a) 0 0.
Proof. by split. Qed.

Lemma runs_within_straight {A} st (c : M A) :
  runs_within st (Stack.straight c) c 0 0.
Proof. by split. Qed.

Lemma runs_within_call {A} st (t : Stack.T A) c K C :
  runs_within st t c K C → runs_within st (Stack.call t) c (S K) (S C).
Proof.
  unfold runs_within, Stack.call. destruct (t st) as [out m]. simpl.
  intros (? & ? & ?). split; [done|]. split; lia.
Qed.

Lemma runs_within_bind {A B} st (t : Stack.T A) c (k : A → Stack.T B) k'
    K1 C1 K2 C2 :
  runs_within st t c K1 C1 →
  (∀ a st1, c st = (Ok a, st1) → runs_within st1 (k a) (k' a) K2 C2) →
  runs_within st (Stack.bind t k) (bind c k') (K1 `max` K2) (C1 + C2).
Proof.
  unfold runs_within, Stack.bind, bind.
  destruct (t st) as [[[a|e] st1] m1]; simpl; intros (<- & ? & ?) Hk.
  - destruct (Hk a st1 eq_refl) as (Hout & ? & ?).
    destruct (k a st1) as [out m2]. simpl in *.
    split; [done|]. split; lia.
  - split; [done|]. split; lia.
Qed.

(** A call that only computes a value of the caller's state. *)
Lemma runs_within_silent {A B} st (a : A) (k : A → Stack.T B) c K C :
  runs_within st (k a) c K C →
  runs_within st (Stack.bind (Stack.call (Stack.ret a)) k) c
    (1 `max` K) (1 + C).
Proof.
  unfold runs_within, Stack.bind, Stack.call, Stack.ret. simpl.
  destruct (k a st) as [out m2]. simpl.
  intros (? & ? & ?). split; [done|]. split; lia.
Qed.

Lemma Stack_fetch_batch_within chunk st :
  runs_within st (Stack.fetch_batch remote chunk) (fetch_batch remote chunk) 2 2.
Proof.
  unfold Stack.fetch_batch, fetch_batch, runs_within, Stack.call.
  destruct (remote chunk) as [entities|]; simpl.
  - unfold Stack.store_entites_locally, Stack.call, Stack.straight. simpl.
    split; [done|]. split; lia.
  - split; [done|]. split; lia.
Qed.

Lemma Stack_star_args_within chunks st :
  runs_within st (Stack.star_args remote chunks)
    (star_args (fetch_batch remote) chunks) 3 (4 * length chunks + 2).
Proof.
  revert st. induction chunks as [|chunk chunks IH]; intros st.
  - split; [done|]. split; simpl; lia.
  - cbn [Stack.star_args star_args length].
    eapply runs_within_weaken.
    + apply (runs_within_bind _ _ _ _ _ 3 4 3 (4 * length chunks + 2)).
      * apply runs_within_call.
        apply (runs_within_weaken _ _ _ (1 `max` 2) (1 + 2)); [|lia|lia].
        apply (runs_within_silent st chunk (Stack.fetch_batch remote)).
        apply Stack_fetch_batch_within.
      * intros v st1 _.
        apply (runs_within_weaken _ _ _ (3 `max` 0) (4 * length chunks + 2 + 0));
          [|lia|lia].
        apply runs_within_bind; [apply IH|].
        intros vs st2 _. apply runs_within_ret.
    + lia.
    + lia.
Qed.

Lemma Stack_get_entities_within ids st :
  runs_within st (Stack.get_entities remote ids) (get_entities remote ids)
    4 (4 * length (batches (missing st ids)) + 5).
Proof.
  unfold Stack.get_entities, get_entities.
  apply (runs_within_weaken _ _ _
           (S ((1 `max` (3 `max` 0)) `max` (1 `max` 0)))
           (S (1 + (4 * length (batches (missing st ids)) + 2 + 0) + (1 + 0))));
    [|lia|lia].
  apply runs_within_call, runs_within_bind.
  - unfold Stack.fetch_missing, fetch_missing.
    apply runs_within_bind.
    + apply runs_within_call, runs_within_straight.
    + intros nonlocal_ids st1. unfold get_non_local_ids.
      rewrite get_non_local_ids_loop_filter. intros [= <- <-].
      apply runs_within_bind; [apply Stack_star_args_within|].
      intros args st2 _. apply runs_within_ret.
  - intros _chain st1 _. apply runs_within_bind.
    + apply runs_within_call, runs_within_straight.
    + intros entities st2 _. apply runs_within_ret.
Qed.

Lemma Stack_Entity_within entity_id st :
  runs_within st (Stack.Entity remote entity_id false)
    (Entity remote entity_id false) 6 11.
Proof.
  assert (Hone : length (batches (missing st [entity_id])) ≤ 1).
  { rewrite batches_length.
    assert (length (missing st [entity_id]) ≤ 1)
      by (unfold missing; apply (length_filter _ [entity_id])).
    apply Nat.Div0.div_le_upper_bound. lia. }
  unfold Stack.Entity, Entity.
  apply (runs_within_weaken _ _ _ (S (5 `max` 0)) (S (10 + 0))); [|lia|lia].
  apply runs_within_call, runs_within_bind.
  - unfold Stack.load_entity, load_entity.
    apply (runs_within_weaken _ _ _
             (S (4 `max` 0))
             (S (4 * length (batches (missing st [entity_id])) + 5 + 0)));
      [|lia|lia].
    apply runs_within_call, runs_within_bind.
    + apply Stack_get_entities_within.
    + intros [|entity entities] st1 _;
        [apply runs_within_straight | apply runs_within_ret].
  - intros data st1 _. apply runs_within_ret.
Qed.

Lemma Stack_parse_snak_within snak st :
  runs_within st (Stack.parse_snak remote snak) (parse_snak remote snak) 7 25.
Proof.
  unfold Stack.parse_snak, parse_snak.
  apply (runs_within_weaken _ _ _ (S 6) (S 24)); [|lia|lia].
  apply runs_within_call.
  destruct (decide (datatype snak ∉ INTERESTING_DATA_TYPES)) as [_|_];
    [eapply runs_within_weaken; [apply runs_within_ret|lia|lia]|].
  destruct (decide (snaktype snak ≠ "value")) as [_|_];
    [eapply runs_within_weaken; [apply runs_within_ret|lia|lia]|].
  apply (runs_within_weaken _ _ _ (6 `max` 6) (11 + 13)); [|lia|lia].
  apply runs_within_bind; [apply Stack_Entity_within|].
  intros property_entity st1 _.
  apply (runs_within_weaken _ _ _ (1 `max` 6) (1 + 12)); [|lia|lia].
  apply (runs_within_silent st1 (label property_entity)).
  apply (runs_within_weaken _ _ _ (0 `max` 6) (0 + 12)); [|lia|lia].
  apply runs_within_bind; [apply runs_within_straight|].
  intros value st2 _.
  apply (runs_within_weaken _ _ _ (6 `max` 0) (12 + 0)); [|lia|lia].
  apply runs_within_bind; [|intros; apply runs_within_ret].
  destruct (decide (datatype snak = WIKIBASE_ITEM_DATA_TYPE)) as [_|_].
  - apply (runs_within_weaken _ _ _ (0 `max` 6) (0 + 12)); [|lia|lia].
    apply runs_within_bind; [apply runs_within_straight|].
    intros i st3 _.
    apply (runs_within_weaken _ _ _ (6 `max` 1) (11 + 1)); [|lia|lia].
    apply runs_within_bind; [apply Stack_Entity_within|].
    intros item st4 _.
    apply (runs_within_weaken _ _ _ (1 `max` 0) (1 + 0)); [|lia|lia].
    apply (runs_within_silent st4 (label item)
             (λ item_label, Stack.ret (of_optional item_label))).
    apply runs_within_ret.
  - destruct (decide (datatype snak = "amount")) as [_|_].
    + apply (runs_within_weaken _ _ _ (0 `max` 0) (0 + 0)); [|lia|lia].
      apply runs_within_bind; [apply runs_within_straight|].
      intros; apply runs_within_ret.
    + destruct (decide (datatype snak = "time")) as [_|_].
      * apply (runs_within_weaken _ _ _ (0 `max` 0) (0 + 0)); [|lia|lia].
        apply runs_within_bind; [apply runs_within_straight|].
        intros; apply runs_within_ret.
      * eapply runs_within_weaken; [apply runs_within_ret|lia|lia].
Qed.

Lemma Stack_claims_snaks_within snaks acc st :
  runs_within st (Stack.claims_snaks remote snaks acc)
    (claims_snaks remote snaks acc) 7 (25 * length snaks).
Proof.
  revert acc st. induction snaks as [|snak snaks IH]; intros acc st.
  - eapply runs_within_weaken; [apply runs_within_ret|lia|simpl; lia].
  - cbn [Stack.claims_snaks claims_snaks length].
    apply (runs_within_weaken _ _ _ (7 `max` 7) (25 + 25 * length snaks));
      [|lia|lia].
    apply runs_within_bind; [apply Stack_parse_snak_within|].
    intros [q|] st1 _; apply IH.
Qed.

Lemma Stack_claims_qualifier_ids_within claim ids acc st :
  runs_within st (Stack.claims_qualifier_ids remote claim ids acc)
    (claims_qualifier_ids remote claim ids acc)
    7 (25 * visited_qualifiers (qualifiers claim) ids).
Proof.
  revert acc st. induction ids as [|i ids IH]; intros acc st.
  - eapply runs_within_weaken; [apply runs_within_ret|lia|simpl; lia].
  - cbn [Stack.claims_qualifier_ids claims_qualifier_ids visited_qualifiers].
    destruct (qualifiers claim) as [d|]; cbn [mbind option_bind];
      [|eapply runs_within_weaken; [apply runs_within_straight|lia|lia]].
    destruct (dict_get d i) as [snaks|]; cbn [default from_option id];
      [|eapply runs_within_weaken; [apply runs_within_straight|lia|lia]].
    apply (runs_within_weaken _ _ _ (7 `max` 7)
             (25 * length snaks + 25 * visited_qualifiers (Some d) ids));
      [|lia|unfold id; lia].
    apply runs_within_bind; [apply Stack_claims_snaks_within|].
    intros acc1 st1 _. apply IH.
Qed.

Lemma Stack_claims_claim_within claim st :
  runs_within st (Stack.claims_claim remote claim) (claims_claim remote claim)
    7 (25 * visited_snaks claim).
Proof.
  unfold Stack.claims_claim, claims_claim, visited_snaks.
  apply (runs_within_weaken _ _ _ (7 `max` 7)
           (25 + 25 * visited_qualifiers (qualifiers claim)
                        (default [] (qualifiers_order claim))));
    [|lia|lia].
  apply runs_within_bind; [apply Stack_parse_snak_within|].
  intros [[p v]|] st1 _;
    [|eapply runs_within_weaken; [apply runs_within_ret|lia|lia]].
  apply (runs_within_weaken _ _ _ (7 `max` 0)
           (25 * visited_qualifiers (qualifiers claim)
                   (default [] (qualifiers_order claim)) + 0));
    [|lia|lia].
  apply runs_within_bind; [apply Stack_claims_qualifier_ids_within|].
  intros [|q qs] st2 _; apply runs_within_ret.
Qed.

Lemma Stack_claims_loop_within cl yielded st :
  runs_within st (Stack.claims_loop remote cl yielded)
    (claims_loop remote cl yielded)
    7 (26 * sum_list (map visited_snaks cl)).
Proof.
  revert yielded st. induction cl as [|claim cl IH]; intros yielded st.
  - eapply runs_within_weaken; [apply runs_within_ret|lia|simpl; lia].
  - assert (Hsum : sum_list (map visited_snaks (claim :: cl))
                   = visited_snaks claim + sum_list (map visited_snaks cl))
      by reflexivity.
    assert (Hpos : 1 ≤ visited_snaks claim) by (unfold visited_snaks; lia).
    cbn [Stack.claims_loop claims_loop]. rewrite Hsum.
    apply (runs_within_weaken _ _ _ (7 `max` 7)
             (25 * visited_snaks claim
              + (1 + 26 * sum_list (map visited_snaks cl))));
      [| lia | lia].
    apply runs_within_bind; [apply Stack_claims_claim_within|].
    intros [t|] st1 _.
    + specialize (IH (yielded ++ [t]) st1).
      unfold runs_within, Stack.bind, Stack.yield in *. simpl.
      destruct (Stack.claims_loop remote cl (yielded ++ [t]) st1) as [out m].
      simpl in *. destruct IH as (? & ? & ?). split; [done|]. split; lia.
    + eapply runs_within_weaken; [apply IH|lia|lia].
Qed.

(** C5: the [claims] accessor, iterated to its end, returns or raises
    with a call stack that never holds more than eight frames of the
    script's functions (its own, [parse_snak], [Entity.__init__],
    [load_entity], [get_entities], the generator expression,
    [fetch_batch], [store_entites_locally]), after at most 26 frames
    pushed, and two requests sent, per snak of the document that it
    renders. This holds whatever the documents of the referred entities
    hold, so also when they refer back: [parse_snak] builds the entities
    of the property and of the referred item without [deep], reads their
    label, and never their claims. *)
Theorem claims_terminates_on_cycle data st :
  fst (Stack.claims remote data st) = claims remote data st ∧
  Stack.peak (snd (Stack.claims remote data st)) ≤ 8 ∧
  Stack.calls (snd (Stack.claims remote data st)) ≤ 1 + 26 * snak_count data ∧
  length (requests (snd (claims remote data st)))
  ≤ length (requests st) + 2 * snak_count data.
Proof.
  destruct (runs_within_call st _ _ _ _
    (Stack_claims_loop_within (concat (dict_values (e_claims data))) [] st))
    as (Hout & Hpeak & Hcalls).
  split; [exact Hout|]. split; [exact Hpeak|]. split; [exact Hcalls|].
  destruct (claims remote data st) as [r st'] eqn:Hrun.
  by apply claims_loop_requests in Hrun.
Qed.

End RenderingCost.

Lemma claims_terminates_on_cycle_witness :
  references alice bob ∧ references bob alice ∧
  fst (Stack.claims couple alice empty_state) = claims couple alice empty_state ∧
  Stack.peak (snd (Stack.claims couple alice empty_state)) ≤ 8 ∧
  Stack.calls (snd (Stack.claims couple alice empty_state)) ≤ 27 ∧
  length (requests (snd (claims couple alice empty_state))) ≤ 2.
Proof.
  assert (Hab : references alice bob).
  { exists (spouse "Q200"). split; [by left|].
    split; [apply (bool_decide_unpack _); vm_compute; exact I|].
    split; reflexivity. }
  assert (Hba : references bob alice).
  { exists (spouse "Q100"). split; [by left|].
    split; [apply (bool_decide_unpack _); vm_compute; exact I|].
    split; reflexivity. }
  split; [exact Hab|]. split; [exact Hba|].
  exact (claims_terminates_on_cycle couple alice empty_state).
Defined.

(** On the two spouses the bounds are reached: rendering either one takes
    the eight frames and the 27 pushes, loads the document of the other,
    which refers back, and yields the one tuple of its own statement. *)
Example claims_of_spouses :
  fst (claims couple alice empty_state) = Ok [Pair (PStr "spouse") (PStr "Bob")] ∧
  fst (claims couple bob empty_state) = Ok [Pair (PStr "spouse") (PStr "Alice")] ∧
  requests (snd (claims couple alice empty_state)) = [["P26"]; ["Q200"]] ∧
  cache (snd (claims couple alice empty_state)) !! "Q200" = Some (json_dump_load bob) ∧
  snd (Stack.claims couple alice empty_state)
  = {| Stack.peak := 8; Stack.calls := 27 |} ∧
  snd (Stack.claims couple bob empty_state)
  = {| Stack.peak := 8; Stack.calls := 27 |}.
Proof. repeat split; vm_compute; reflexivity. Qed.

(** * Further properties of the resolver *)

Lemma batches_nil {A} : batches (@nil A) = [].
Proof. reflexivity. Qed.

Lemma missing_all_cached st ids :
  (∀ x, x ∈ ids → is_Some (cache st !! x)) → missing st ids = [].
Proof.
  intros Hall. unfold missing. induction ids as [|x ids IH]; [done|].
  rewrite filter_cons_False.
  - apply IH. intros y Hy. apply Hall. by right.
  - destruct (Hall x) as [e He]; [by left|]. by rewrite He.
Qed.

Lemma missing_elem_of st ids x :
  x ∈ missing st ids ↔ x ∈ ids ∧ cache st !! x = None.
Proof. unfold missing. rewrite list_elem_of_filter. tauto. Qed.

Lemma get_local_entities_loop_read ids entities acc st :
  Forall2 (λ x e, cache st !! x = Some e) ids entities →
  get_local_entities_loop ids acc st = (Ok (acc ++ entities), st).
Proof.
  intros HF. revert acc. induction HF as [|x e ids entities Hx _ IH]; intros acc; simpl.
  - by rewrite app_nil_r.
  - rewrite Hx, IH, <- app_assoc. done.
Qed.

Lemma Forall2_cached_exists st ids :
  (∀ x, x ∈ ids → is_Some (cache st !! x)) →
  ∃ entities, Forall2 (λ x e, cache st !! x = Some e) ids entities.
Proof.
  induction ids as [|x ids IH]; intros Hall.
  - exists []. constructor.
  - destruct (Hall x) as [e He]; [by left|].
    destruct IH as [entities HF]; [intros; apply Hall; by right|].
    exists (e :: entities). by constructor.
Qed.

(** With every requested identifier in the cache, [get_entities] reads
    and sends nothing. *)
Lemma get_entities_all_cached remote ids st entities :
  Forall2 (λ x e, cache st !! x = Some e) ids entities →
  get_entities remote ids st = (Ok entities, st).
Proof.
  intros HF. rewrite get_entities_unfold, fetch_missing_unfold.
  rewrite missing_all_cached.
  - rewrite batches_nil. simpl. unfold get_local_entities.
    by rewrite (get_local_entities_loop_read ids entities []).
  - intros x Hx. apply list_elem_of_lookup in Hx as [i Hi].
    destruct (Forall2_lookup_l _ _ _ _ _ HF Hi) as (e & _ & He). by eexists.
Qed.

Lemma get_entities_ok_cached remote ids st entities st' :
  get_entities remote ids st = (Ok entities, st') →
  Forall2 (λ x e, cache st' !! x = Some e) ids entities.
Proof.
  rewrite get_entities_unfold.
  destruct (fetch_missing remote ids st) as [[pending|e] st1]; [|done].
  unfold get_local_entities. intros Hloc.
  pose proof (get_local_entities_loop_state _ _ _ _ _ Hloc) as ->.
  apply get_local_entities_loop_ok in Hloc as (new & -> & HF). done.
Qed.

(** X1: a call whose identifiers are all cached returns their documents,
    in order, leaves the state as it is (no request) and does not depend
    on the remote. *)
Theorem get_entities_cache_hit remote remote' ids st :
  (∀ x, x ∈ ids → is_Some (cache st !! x)) →
  ∃ entities,
    get_entities remote ids st = (Ok entities, st) ∧
    get_entities remote' ids st = (Ok entities, st) ∧
    Forall2 (λ x e, cache st !! x = Some e) ids entities.
Proof.
  intros Hall. destruct (Forall2_cached_exists st ids Hall) as [entities HF].
  exists entities. split; [|split; [|done]]; by apply get_entities_all_cached.
Qed.

Lemma get_entities_cache_hit_witness :
  (∀ x, x ∈ ["Q5"; "Q5"] → is_Some (cache warm_state !! x)) ∧
  ∃ entities,
    get_entities echo_remote ["Q5"; "Q5"] warm_state = (Ok entities, warm_state) ∧
    get_entities flaky_remote ["Q5"; "Q5"] warm_state = (Ok entities, warm_state) ∧
    Forall2 (λ x e, cache warm_state !! x = Some e) ["Q5"; "Q5"] entities.
Proof.
  assert (H : ∀ x, x ∈ ["Q5"; "Q5"] → is_Some (cache warm_state !! x)).
  { intros x Hx. assert (x = "Q5") as ->.
    { apply elem_of_cons in Hx as [->|Hx]; [done|].
      by apply list_elem_of_singleton in Hx. }
    vm_compute. by eexists. }
  split; [exact H|].
  exact (get_entities_cache_hit echo_remote flaky_remote ["Q5"; "Q5"] warm_state H).
Defined.

(** X2: a call that returned can be repeated in the state it left: the
    second call returns the same documents and sends no request. *)
Theorem get_entities_idempotent remote ids st entities st' :
  get_entities remote ids st = (Ok entities, st') →
  get_entities remote ids st' = (Ok entities, st').
Proof.
  intros H%get_entities_ok_cached. by apply get_entities_all_cached.
Qed.

Lemma get_entities_idempotent_witness :
  ∃ entities st',
    get_entities echo_remote three warm_state = (Ok entities, st') ∧
    get_entities echo_remote three st' = (Ok entities, st').
Proof.
  destruct (get_entities echo_remote three warm_state) as [[entities|e] st'] eqn:Hrun.
  - exists entities, st'. split; [reflexivity|].
    exact (get_entities_idempotent echo_remote three warm_state entities st' Hrun).
  - exfalso. vm_compute in Hrun. discriminate Hrun.
Defined.

(** X3: whatever the outcome, the requests of one call are the first
    chunks of the missing identifiers, in order, so every identifier sent
    was requested and had no document when the call began. *)
Theorem get_entities_requests_only_missing remote ids st r st' :
  get_entities remote ids st = (r, st') →
  ∃ sent,
    requests st' = requests st ++ sent ∧
    sent `prefix_of` batches (missing st ids) ∧
    Forall (Forall (λ x, x ∈ ids ∧ cache st !! x = None)) sent.
Proof.
  rewrite get_entities_unfold, fetch_missing_unfold.
  destruct (star_args (fetch_batch remote) _ st) as [[args|e] st1] eqn:Hrun;
    apply star_args_fetch_batch_spec in Hrun as (_ & Hrun).
  - destruct Hrun as (_ & Hreq & _). unfold get_local_entities.
    intros ->%get_local_entities_loop_state.
    exists (batches (missing st ids)). split; [done|]. split; [done|].
    apply Forall_forall. intros chunk Hchunk. apply Forall_forall. intros x Hx.
    apply missing_elem_of. rewrite <- (batches_concat (missing st ids)).
    apply elem_of_concat. eauto.
  - destruct Hrun as (n & _ & Hreq). intros [= _ <-].
    exists (take (S n) (batches (missing st ids))).
    split; [done|]. split; [apply prefix_take|].
    apply Forall_take.
    apply Forall_forall. intros chunk Hchunk. apply Forall_forall. intros x Hx.
    apply missing_elem_of. rewrite <- (batches_concat (missing st ids)).
    apply elem_of_concat. eauto.
Qed.

Lemma get_entities_requests_only_missing_witness :
  ∃ sent,
    requests (snd (get_entities echo_remote three warm_state))
      = requests warm_state ++ sent ∧
    sent `prefix_of` batches (missing warm_state three) ∧
    Forall (Forall (λ x, x ∈ three ∧ cache warm_state !! x = None)) sent.
Proof.
  exact (get_entities_requests_only_missing echo_remote three warm_state _ _
           (surjective_pairing _)).
Defined.

Section CacheFacts.

Variable remote : list string → option (list EntityDoc).

Lemma store_entites_locally_within entities st0 st (chunk : list string) :
  Forall (λ e, e_id e ∈ chunk) entities →
  (∀ x, x ∈ chunk → cache st0 !! x = None) →
  cache st0 ⊆ cache st →
  cache st0 ⊆ cache (snd (store_entites_locally entities st)).
Proof.
  intros Hin Hfree. revert st.
  induction Hin as [|e entities He _ IH]; intros st Hsub; simpl; [done|].
  apply IH. simpl. apply insert_subseteq_r; [by apply Hfree | done].
Qed.

Lemma star_args_fetch_batch_within chunks st0 st :
  answers_within remote →
  (∀ x, x ∈ concat chunks → cache st0 !! x = None) →
  cache st0 ⊆ cache st →
  cache st0 ⊆ cache (snd (star_args (fetch_batch remote) chunks st)).
Proof.
  intros Hremote. revert st.
  induction chunks as [|chunk chunks IH]; intros st Hfree Hsub; simpl; [done|].
  unfold bind at 1, fetch_batch at 1.
  destruct (remote chunk) as [entities|] eqn:Hchunk; [|done].
  pose proof (store_entites_locally_within entities st0
    {| cache := cache st; requests := requests st ++ [chunk] |} chunk
    (Hremote _ _ Hchunk)) as Hstore.
  destruct (store_entites_locally_spec entities
    {| cache := cache st; requests := requests st ++ [chunk] |})
    as (st1 & Heq & _).
  rewrite Heq in Hstore |- *. simpl in Hstore.
  assert (Hsub1 : cache st0 ⊆ cache st1).
  { apply Hstore; [|done]. intros x Hx. apply Hfree.
    simpl. apply elem_of_app. by left. }
  assert (Hrest := IH st1). unfold bind at 1.
  destruct (star_args (fetch_batch remote) chunks st1) as [[args|e] st2];
    simpl in *; apply Hrest; try done;
    intros x Hx; apply Hfree; apply elem_of_app; by right.
Qed.

Lemma store_entites_locally_consistent entities st :
  cache_consistent st →
  cache_consistent (snd (store_entites_locally entities st)).
Proof.
  revert st. induction entities as [|e entities IH]; intros st Hc; simpl; [done|].
  apply IH. intros k e' Hk. simpl in Hk.
  destruct (decide (e_id e = k)) as [<-|Hne].
  - rewrite lookup_insert_eq in Hk. by injection Hk as <-.
  - rewrite lookup_insert_ne in Hk by done. by apply Hc.
Qed.

Lemma star_args_fetch_batch_consistent chunks st :
  cache_consistent st →
  cache_consistent (snd (star_args (fetch_batch remote) chunks st)).
Proof.
  revert st. induction chunks as [|chunk chunks IH]; intros st Hc; simpl; [done|].
  unfold bind at 1, fetch_batch at 1.
  destruct (remote chunk) as [entities|] eqn:Hchunk; [|done].
  pose proof (store_entites_locally_consistent entities
    {| cache := cache st; requests := requests st ++ [chunk] |} Hc) as Hstore.
  destruct (store_entites_locally entities _) as [[[]|e] st1]; simpl in *; [|done].
  specialize (IH st1 Hstore). unfold bind at 1.
  by destruct (star_args (fetch_batch remote) chunks st1) as [[args|e] st2].
Qed.

Lemma get_entities_state ids st :
  snd (get_entities remote ids st)
  = snd (star_args (fetch_batch remote) (batches (missing st ids)) st).
Proof.
  rewrite get_entities_unfold, fetch_missing_unfold.
  destruct (star_args (fetch_batch remote) _ st) as [[args|e] st1]; [|done].
  simpl. destruct (get_local_entities ids st1) as [r st2] eqn:Hloc.
  by apply get_local_entities_loop_state in Hloc as ->.
Qed.

(** X4: a call never removes a document from the cache, and when the
    remote answers with documents of requested identifiers only, the
    documents that were cached before the call are still the same after
    it, whatever its outcome. *)
Theorem get_entities_keeps_cache ids st :
  (∀ k, is_Some (cache st !! k) →
        is_Some (cache (snd (get_entities remote ids st)) !! k)) ∧
  (answers_within remote →
   cache st ⊆ cache (snd (get_entities remote ids st))).
Proof.
  rewrite get_entities_state. split.
  - destruct (star_args (fetch_batch remote) _ st) as [r st1] eqn:Hrun.
    by apply star_args_fetch_batch_spec in Hrun as (Hmono & _).
  - intros Hremote. apply star_args_fetch_batch_within; [done| |done].
    intros x Hx. rewrite batches_concat in Hx.
    by apply missing_elem_of in Hx as [_ Hx].
Qed.

(** X7: files named after the identifier of the document they hold stay
    so, and then the documents that a call returns carry the requested
    identifiers, in order. *)
Theorem get_entities_keeps_consistent ids st :
  cache_consistent st →
  cache_consistent (snd (get_entities remote ids st)) ∧
  ∀ entities, fst (get_entities remote ids st) = Ok entities →
    map e_id entities = ids.
Proof.
  intros Hc.
  assert (Hc' : cache_consistent (snd (get_entities remote ids st))).
  { rewrite get_entities_state. by apply star_args_fetch_batch_consistent. }
  split; [done|]. intros entities Hok.
  destruct (get_entities remote ids st) as [r st'] eqn:Hrun. simpl in *. subst r.
  apply get_entities_ok_cached in Hrun.
  induction Hrun as [|x e ids' entities' Hx _ IH]; [done|].
  simpl. f_equal; [by apply Hc'|done].
Qed.

End CacheFacts.

Lemma answers_within_echo : answers_within echo_remote.
Proof.
  intros chunk entities [= <-]. apply Forall_forall.
  intros e (x & -> & Hx)%list_elem_of_fmap. done.
Qed.

Lemma get_entities_keeps_cache_witness :
  answers_within echo_remote ∧
  cache warm_state ⊆ cache (snd (get_entities echo_remote three warm_state)).
Proof.
  split; [exact answers_within_echo|].
  exact (proj2 (get_entities_keeps_cache echo_remote three warm_state)
           answers_within_echo).
Defined.

Lemma get_entities_keeps_consistent_witness :
  cache_consistent warm_state ∧
  cache_consistent (snd (get_entities echo_remote three warm_state)).
Proof.
  assert (H : cache_consistent warm_state).
  { intros k e Hk. unfold warm_state in Hk. simpl in Hk.
    apply lookup_singleton_Some in Hk as [<- <-]. reflexivity. }
  split; [exact H|].
  exact (proj1 (get_entities_keeps_consistent echo_remote three warm_state H)).
Defined.

Section FailureFacts.

Variable remote : list string → option (list EntityDoc).



End FailureFacts.


(** X6: the read-back raises for the first requested identifier, in input
    order, that has no file, and for that one only. *)
Theorem get_local_entities_first_absent pre x post st :
  (∀ y, y ∈ pre → is_Some (cache st !! y)) →
  cache st !! x = None →
  get_local_entities (pre ++ x :: post) st = (Err (FileNotFoundError x), st).
Proof.
  intros Hpre Hx. unfold get_local_entities. generalize (@nil EntityDoc).
  induction pre as [|y pre IH]; intros acc; simpl.
  - by rewrite Hx.
  - destruct (Hpre y) as [e ->]; [by left|].
    apply IH. intros; apply Hpre; by right.
Qed.

Lemma get_local_entities_first_absent_witness :
  (∀ y, y ∈ ["Q5"] → is_Some (cache warm_state !! y)) ∧
  cache warm_state !! "P31" = None ∧
  get_local_entities (["Q5"] ++ "P31" :: ["Q7"]) warm_state
    = (Err (FileNotFoundError "P31"), warm_state).
Proof.
  assert (H1 : ∀ y, y ∈ ["Q5"] → is_Some (cache warm_state !! y)).
  { intros y ->%list_elem_of_singleton. vm_compute. by eexists. }
  assert (H2 : cache warm_state !! "P31" = None) by (vm_compute; reflexivity).
  split; [exact H1|]. split; [exact H2|].
  exact (get_local_entities_first_absent ["Q5"] "P31" ["Q7"] warm_state H1 H2).
Defined.

Lemma store_entites_locally_other entities st k :
  k ∉ map e_id entities →
  cache (snd (store_entites_locally entities st)) !! k = cache st !! k.
Proof.
  revert st. induction entities as [|e entities IH]; intros st Hk; simpl; [done|].
  simpl in Hk. apply not_elem_of_cons in Hk as [Hne Hk].
  rewrite IH by done. simpl. by rewrite lookup_insert_ne.
Qed.

(** X8: documents with distinct identifiers that are stored are read back
    as the documents their files decode to: the same identifier and labels
    and, under every claim key, the same statements, with the items of
    every dict in key order; storing what was read back changes nothing. *)
Theorem store_then_read_back entities st :
  NoDup (map e_id entities) →
  ∃ st',
    store_entites_locally entities st = (Ok tt, st') ∧
    get_local_entities (map e_id entities) st'
      = (Ok (map json_dump_load entities), st') ∧
    Forall (λ e,
      e_id (json_dump_load e) = e_id e ∧
      e_labels (json_dump_load e) = e_labels e ∧
      keys_sorted (e_claims (json_dump_load e)) ∧
      (∀ key, dict_get (e_claims (json_dump_load e)) key
              = map dump_statement <$> dict_get (e_claims e) key) ∧
      json_dump_load (json_dump_load e) = json_dump_load e) entities.
Proof.
  intros Hnd.
  destruct (store_entites_locally_spec entities st) as (st' & Heq & _).
  exists st'. split; [done|]. split.
  - unfold get_local_entities.
    apply (get_local_entities_loop_read (map e_id entities)
             (map json_dump_load entities) []).
    replace st' with (snd (store_entites_locally entities st)) by (by rewrite Heq).
    clear Heq st'. revert st.
    induction entities as [|e entities IH]; intros st; simpl; [constructor|].
    apply NoDup_cons in Hnd as [Hfresh Hnd].
    constructor; [|by apply IH].
    rewrite store_entites_locally_other by done. simpl. apply lookup_insert_eq.
  - apply Forall_forall. intros e _.
    split; [done|]. split; [done|].
    split; [apply sort_keys_sorted|]. split.
    + intros key. unfold json_dump_load, dump_dict. simpl.
      by rewrite dict_get_sort_keys, dict_get_map_values.
    + apply json_dump_load_idempotent.
Qed.

Lemma store_then_read_back_witness :
  NoDup (map e_id [politician; bob]) ∧
  ∃ st',
    store_entites_locally [politician; bob] empty_state = (Ok tt, st') ∧
    get_local_entities (map e_id [politician; bob]) st'
      = (Ok (map json_dump_load [politician; bob]), st').
Proof.
  assert (H : NoDup (map e_id [politician; bob])).
  { apply (bool_decide_unpack _). vm_compute. exact I. }
  split; [exact H|].
  destruct (store_then_read_back [politician; bob] empty_state H)
    as (st' & H1 & H2 & _).
  exists st'. split; [exact H1 | exact H2].
Defined.

Example json_dump_load_politician :
  map fst (e_claims politician) = ["P39"; "P214"] ∧
  map fst (e_claims (json_dump_load politician)) = ["P214"; "P39"] ∧
  (qualifiers <$> dict_get (e_claims (json_dump_load politician)) "P39" ≫= head)
  = Some (Some [("P580", [dump_snak start_time]); ("P582", [end_time_unknown])]) ∧
  datavalue (dump_snak start_time)
  = Some (PDict [("precision", "11"); ("time", "+1947-08-15T00:00:00Z")]).
Proof. vm_compute. repeat split; reflexivity. Qed.

Lemma range_aux_lookup fuel ii stop i k :
  range_aux fuel ii stop 50 !! i = Some k → k = ii + 50 * i ∧ k < stop.
Proof.
  revert ii i. induction fuel as [|fuel IH]; intros ii i; simpl; [done|].
  destruct (decide (ii < stop)); [|done].
  destruct i as [|i]; simpl.
  - intros [= <-]. lia.
  - intros H%IH. lia.
Qed.

(** X9: the chunk of rank [i] is the slice of the list that starts at
    [50 * i]; it is not empty, and every chunk but the last holds exactly
    50 identifiers. *)
Theorem batches_chunk_shape {A} (ids : list A) i chunk :
  batches ids !! i = Some chunk →
  chunk = take 50 (drop (50 * i) ids) ∧
  50 * i < length ids ∧
  (i + 1 < length (batches ids) → length chunk = 50).
Proof.
  intros Hi. pose proof Hi as Hi'.
  unfold batches, range, WIKIBASE_API_MAX_IDS in Hi'.
  rewrite list_lookup_fmap in Hi'.
  destruct (range_aux _ _ _ _ !! i) as [k|] eqn:Hk; [|done].
  apply range_aux_lookup in Hk as [Hk Hlt].
  cbv [fmap option_fmap option_map] in Hi'. injection Hi' as <-.
  assert (k = 50 * i) as -> by lia. clear Hk.
  unfold slice. replace (50 * i + 50 - 50 * i) with 50 by lia.
  split; [done|]. split; [done|].
  intros Hnext. rewrite batches_length in Hnext.
  rewrite length_take, length_drop.
  pose proof (Nat.Div0.mul_div_le (length ids + 49) 50). lia.
Qed.

Lemma batches_chunk_shape_witness :
  batches (replicate 51 "Q1") !! 0 = Some (replicate 50 "Q1") ∧
  0 + 1 < length (batches (replicate 51 "Q1")) ∧
  length (replicate 50 "Q1") = 50.
Proof.
  assert (H : batches (replicate 51 "Q1") !! 0 = Some (replicate 50 "Q1"))
    by (vm_compute; reflexivity).
  assert (H' : 0 + 1 < length (batches (replicate 51 "Q1")))
    by (vm_compute; lia).
  split; [exact H|]. split; [exact H'|].
  exact (proj2 (proj2 (batches_chunk_shape _ 0 _ H)) H').
Defined.

Lemma star_args_fetch_batch_silent remote chunks st :
  Forall (λ chunk, remote chunk = Some []) chunks →
  ∃ args st',
    star_args (fetch_batch remote) chunks st = (Ok args, st') ∧
    cache st' = cache st ∧
    requests st' = requests st ++ chunks.
Proof.
  intros Hsilent. revert st.
  induction Hsilent as [|chunk chunks Hchunk _ IH]; intros st; simpl.
  - exists [], st. by rewrite app_nil_r.
  - unfold bind at 1, fetch_batch at 1. rewrite Hchunk. simpl. unfold ret at 1.
    destruct (IH {| cache := cache st; requests := requests st ++ [chunk] |})
      as (args & st' & Hrun & Hcache & Hreq).
    unfold bind at 1. rewrite Hrun. unfold ret.
    exists (tt :: args), st'. split; [done|]. split; [done|].
    rewrite Hreq. simpl. by rewrite <- app_assoc.
Qed.

(** X16: when the remote answers every request without a document, the
    call sends all its requests and then raises for the first requested
    identifier, in input order, that has no file; the cache is as before. *)
Theorem get_entities_unknown_identifier remote ids st pre x post :
  Forall (λ chunk, remote chunk = Some []) (batches (missing st ids)) →
  ids = pre ++ x :: post →
  (∀ y, y ∈ pre → is_Some (cache st !! y)) →
  cache st !! x = None →
  ∃ st',
    get_entities remote ids st = (Err (FileNotFoundError x), st') ∧
    cache st' = cache st ∧
    requests st' = requests st ++ batches (missing st ids).
Proof.
  intros Hsilent -> Hpre Hx.
  destruct (star_args_fetch_batch_silent remote _ st Hsilent)
    as (args & st' & Hrun & Hcache & Hreq).
  exists st'. split; [|done].
  rewrite get_entities_unfold, fetch_missing_unfold, Hrun.
  unfold get_local_entities. generalize (@nil EntityDoc).
  clear Hrun Hsilent Hreq. induction pre as [|y pre IH]; intros acc; simpl.
  - by rewrite Hcache, Hx.
  - rewrite Hcache. destruct (Hpre y) as [e ->]; [by left|].
    apply IH. intros; apply Hpre; by right.
Qed.

Lemma get_entities_unknown_identifier_witness :
  Forall (λ chunk, silent_remote chunk = Some []) (batches (missing warm_state three)) ∧
  three = ["Q5"] ++ "P31" :: ["Q5"] ∧
  (∀ y, y ∈ ["Q5"] → is_Some (cache warm_state !! y)) ∧
  cache warm_state !! "P31" = None ∧
  ∃ st',
    get_entities silent_remote three warm_state = (Err (FileNotFoundError "P31"), st') ∧
    requests st' = requests warm_state ++ batches (missing warm_state three).
Proof.
  assert (H1 : Forall (λ chunk, silent_remote chunk = Some [])
                 (batches (missing warm_state three))).
  { apply Forall_forall. intros chunk _. reflexivity. }
  assert (H2 : three = ["Q5"] ++ "P31" :: ["Q5"]) by reflexivity.
  assert (H3 : ∀ y, y ∈ ["Q5"] → is_Some (cache warm_state !! y)).
  { intros y ->%list_elem_of_singleton. vm_compute. by eexists. }
  assert (H4 : cache warm_state !! "P31" = None) by (vm_compute; reflexivity).
  split; [exact H1|]. split; [exact H2|]. split; [exact H3|]. split; [exact H4|].
  destruct (get_entities_unknown_identifier silent_remote three warm_state
              ["Q5"] "P31" ["Q5"] H1 H2 H3 H4) as (st' & Hrun & _ & Hreq).
  exists st'. split; [exact Hrun | exact Hreq].
Defined.

(** * Further properties of [Entity] *)

Lemma batches_singleton {A} (x : A) : batches [x] = [[x]].
Proof. reflexivity. Qed.

Lemma Entity_cached remote entity_id st e :
  cache st !! entity_id = Some e →
  Entity remote entity_id false st = (Ok e, st).
Proof.
  intros He. unfold Entity, load_entity, bind at 1, bind at 1.
  rewrite (get_entities_all_cached remote [entity_id] st [e]); [done|].
  by repeat constructor.
Qed.

(** X10: building an entity without [deep] sends one request, for that
    identifier alone, when it has no file, and none when it has one; the
    document it holds is the one filed under the identifier. *)
Theorem Entity_one_request remote entity_id st :
  requests (snd (Entity remote entity_id false st))
  = requests st ++ (if decide (cache st !! entity_id = None)
                    then [[entity_id]] else []) ∧
  ∀ e, fst (Entity remote entity_id false st) = Ok e →
       cache (snd (Entity remote entity_id false st)) !! entity_id = Some e.
Proof.
  split.
  - destruct (cache st !! entity_id) as [e|] eqn:Hc.
    + rewrite (Entity_cached remote entity_id st e Hc).
      rewrite decide_False by done. by rewrite app_nil_r.
    + rewrite decide_True by done.
      unfold Entity, load_entity, bind at 1, bind at 1.
      rewrite get_entities_unfold, fetch_missing_unfold.
      assert (missing st [entity_id] = [entity_id]) as ->.
      { unfold missing. by rewrite filter_cons_True. }
      rewrite batches_singleton.
      destruct (star_args (fetch_batch remote) [[entity_id]] st)
        as [[args|err] st1] eqn:Hrun;
        apply star_args_fetch_batch_spec in Hrun as (_ & Hrun).
      * destruct Hrun as (_ & Hreq & _).
        destruct (get_local_entities [entity_id] st1) as [[entities|err] st2] eqn:Hloc;
          apply get_local_entities_loop_state in Hloc as ->;
          [destruct entities|]; done.
      * destruct Hrun as (n & Hn & Hreq). simpl in Hn.
        assert (n = 0) as -> by lia. done.
  - intros e. destruct (Entity remote entity_id false st) as [r st'] eqn:Hrun.
    simpl. intros ->. revert Hrun.
    unfold Entity, load_entity, bind at 1, bind at 1.
    destruct (get_entities remote [entity_id] st) as [[entities|err] st1] eqn:Hget;
      [|done].
    apply get_entities_ok_cached in Hget.
    inversion Hget as [|x e' ids entities' Hx Hrest]; subst.
    unfold ret. by intros [= <- <-].
Qed.

Lemma Entity_one_request_witness :
  fst (Entity couple "Q100" false empty_state) = Ok alice ∧
  cache (snd (Entity couple "Q100" false empty_state)) !! "Q100" = Some alice.
Proof.
  assert (H : fst (Entity couple "Q100" false empty_state) = Ok alice)
    by (vm_compute; reflexivity).
  split; [exact H|].
  exact (proj2 (Entity_one_request couple "Q100" empty_state) alice H).
Defined.

(** X11: an item-valued snak whose property and referenced item are both
    cached normalizes to the pair of their labels ([None] for an entity
    without a label in the language), without a request. *)
Theorem parse_snak_item_labels remote snak st pe i item :
  displayable snak →
  datatype snak = WIKIBASE_ITEM_DATA_TYPE →
  cache st !! property snak = Some pe →
  referenced_id snak = Ok i →
  cache st !! i = Some item →
  parse_snak remote snak st
  = (Ok (Some (of_optional (label pe), of_optional (label item))), st).
Proof.
  intros Hd Hitem Hp Hi Hc.
  unfold referenced_id in Hi.
  destruct (datavalue snak) as [value|] eqn:Hdv;
    unfold datavalue_value in Hi; rewrite Hdv in Hi; [|done].
  simpl in Hi.
  rewrite (parse_snak_value remote snak st pe st value Hd
             (Entity_cached remote _ st pe Hp) Hdv).
  rewrite decide_True by done. rewrite Hi.
  by rewrite (Entity_cached remote i st item Hc).
Qed.

Lemma dict_get_values {V} (d : list (string * V)) key v :
  dict_get d key = Some v → v ∈ dict_values d.
Proof.
  induction d as [|[k w] d IH]; simpl; [done|].
  destruct (decide (k = key)).
  - intros [= ->]. by left.
  - intros H. right. by apply IH.
Qed.

Lemma parse_snak_no_datavalue remote snak st pe st1 :
  displayable snak →
  Entity remote (property snak) false st = (Ok pe, st1) →
  datavalue snak = None →
  parse_snak remote snak st = (Err (KeyError "datavalue"), st1).
Proof.
  intros [Hin Hval] Hp Hdv. unfold parse_snak.
  rewrite decide_False by (intros H; by apply H).
  rewrite decide_False by (intros H; by apply H).
  unfold bind at 1. rewrite Hp.
  unfold bind, lift, datavalue_value. by rewrite Hdv.
Qed.

Section Offline.

Variables remote remote' : list string → option (list EntityDoc).

Lemma parse_snak_offline snak st :
  (displayable snak → ∀ x, x ∈ snak_identifiers snak → is_Some (cache st !! x)) →
  ∃ r, parse_snak remote snak st = (r, st) ∧ parse_snak remote' snak st = (r, st).
Proof.
  intros Hwarm. destruct (decide (displayable snak)) as [Hd|Hnd].
  - specialize (Hwarm Hd).
    destruct (Hwarm (property snak)) as [pe Hp]; [by left|].
    destruct (datavalue snak) as [value|] eqn:Hdv.
    + rewrite (parse_snak_value remote snak st pe st value Hd
                 (Entity_cached remote _ st pe Hp) Hdv).
      rewrite (parse_snak_value remote' snak st pe st value Hd
                 (Entity_cached remote' _ st pe Hp) Hdv).
      destruct (decide (datatype snak = WIKIBASE_ITEM_DATA_TYPE)) as [Hitem|_].
      * destruct (subscript value "id") as [i|e] eqn:Hi; [|eauto].
        destruct (Hwarm i) as [item Hc].
        { unfold snak_identifiers. right. rewrite decide_True by done.
          unfold referenced_id, datavalue_value. rewrite Hdv. simpl.
          rewrite Hi. by left. }
        rewrite (Entity_cached remote i st item Hc).
        rewrite (Entity_cached remote' i st item Hc). eauto.
      * destruct (decide (datatype snak = "time")); [|eauto].
        destruct (subscript value "time"); eauto.
    + rewrite (parse_snak_no_datavalue remote snak st pe st Hd
                 (Entity_cached remote _ st pe Hp) Hdv).
      rewrite (parse_snak_no_datavalue remote' snak st pe st Hd
                 (Entity_cached remote' _ st pe Hp) Hdv).
      eauto.
  - rewrite !parse_snak_not_displayable by done. eauto.
Qed.

Lemma claims_snaks_offline snaks acc st :
  (∀ q, q ∈ snaks → displayable q →
        ∀ x, x ∈ snak_identifiers q → is_Some (cache st !! x)) →
  ∃ r, claims_snaks remote snaks acc st = (r, st) ∧
       claims_snaks remote' snaks acc st = (r, st).
Proof.
  revert acc. induction snaks as [|q snaks IH]; intros acc Hwarm; simpl.
  - unfold ret. eauto.
  - destruct (parse_snak_offline q st) as (r & H1 & H2).
    { apply Hwarm. by left. }
    unfold bind at 1 2. rewrite H1, H2.
    destruct r as [[t|]|e]; [| |eauto];
      apply IH; intros q' Hq'; apply Hwarm; by right.
Qed.

Lemma claims_qualifier_ids_offline claim ids acc st :
  (∀ q, q ∈ qualifier_snaks claim → displayable q →
        ∀ x, x ∈ snak_identifiers q → is_Some (cache st !! x)) →
  ∃ r, claims_qualifier_ids remote claim ids acc st = (r, st) ∧
       claims_qualifier_ids remote' claim ids acc st = (r, st).
Proof.
  intros Hwarm. revert acc. induction ids as [|i ids IH]; intros acc; simpl.
  - unfold ret. eauto.
  - destruct (qualifiers claim) as [d|] eqn:Hq; [|unfold raise; eauto].
    destruct (dict_get d i) as [snaks|] eqn:Hd; [|unfold raise; eauto].
    destruct (claims_snaks_offline snaks acc st) as (r & H1 & H2).
    { intros q Hin. apply Hwarm. unfold qualifier_snaks. rewrite Hq. simpl.
      apply elem_of_concat. exists snaks. split; [|done].
      by eapply dict_get_values. }
    unfold bind at 1 2. rewrite H1, H2.
    destruct r as [acc1|e]; [apply IH | eauto].
Qed.

Lemma claims_claim_offline claim st :
  (∀ x, x ∈ statement_dependencies claim → is_Some (cache st !! x)) →
  ∃ r, claims_claim remote claim st = (r, st) ∧
       claims_claim remote' claim st = (r, st).
Proof.
  intros Hwarm. unfold claims_claim.
  assert (Hdeps : displayable (mainsnak claim) →
    (∀ x, x ∈ snak_identifiers (mainsnak claim) → is_Some (cache st !! x)) ∧
    (∀ q, q ∈ qualifier_snaks claim → displayable q →
       ∀ x, x ∈ snak_identifiers q → is_Some (cache st !! x))).
  { intros [Hin _]. unfold statement_dependencies in Hwarm.
    rewrite decide_True in Hwarm by done. split.
    - intros x Hx. apply Hwarm. apply elem_of_app. by left.
    - intros q Hq [_ Hval] x Hx. apply Hwarm. apply elem_of_app. right.
      apply elem_of_concat. exists (snak_identifiers q). split; [|done].
      apply list_elem_of_fmap. exists q. split; [done|].
      by apply list_elem_of_filter. }
  destruct (parse_snak_offline (mainsnak claim) st) as (r & H1 & H2).
  { intros Hd. exact (proj1 (Hdeps Hd)). }
  unfold bind at 1 3. rewrite H1, H2.
  destruct r as [[[p v]|]|e]; [|unfold ret; eauto|eauto].
  assert (Hd : displayable (mainsnak claim)) by (by eapply parse_snak_some).
  destruct (claims_qualifier_ids_offline claim
              (default [] (qualifiers_order claim)) [] st) as (r & H3 & H4).
  { exact (proj2 (Hdeps Hd)). }
  unfold bind. rewrite H3, H4.
  destruct r as [[|q qs]|e]; unfold ret; eauto.
Qed.

Lemma claims_loop_offline cl yielded st :
  (∀ x, x ∈ concat (map statement_dependencies cl) → is_Some (cache st !! x)) →
  ∃ r, claims_loop remote cl yielded st = (r, st) ∧
       claims_loop remote' cl yielded st = (r, st).
Proof.
  revert yielded. induction cl as [|claim cl IH]; intros yielded Hwarm; simpl.
  - unfold ret. eauto.
  - destruct (claims_claim_offline claim st) as (r & H1 & H2).
    { intros x Hx. apply Hwarm. simpl. apply elem_of_app. by left. }
    unfold bind at 1 2. rewrite H1, H2.
    destruct r as [[t|]|e]; [| |eauto];
      apply IH; intros x Hx; apply Hwarm; simpl; apply elem_of_app; by right.
Qed.

(** X12: after [Entity(entity_id, deep=True)] has returned, every
    identifier that the extractor listed is cached, and iterating the
    [claims] of the entity sends no request and writes nothing: it ends in
    the state it started from, with the outcome that any other remote
    would give. *)
Theorem deep_load_makes_claims_offline entity_id st data st1 :
  Entity remote entity_id true st = (Ok data, st1) →
  (∀ x, x ∈ document_dependencies data → is_Some (cache st1 !! x)) ∧
  ∃ r, claims remote data st1 = (r, st1) ∧ claims remote' data st1 = (r, st1).
Proof.
  unfold Entity, bind at 1.
  destruct (load_entity remote entity_id st) as [[data0|e] st0]; [|done].
  unfold bind at 1, load_dependencies, bind at 1, lift.
  pose proof (dependencies_of_spec data0) as Hspec.
  destruct (dependencies_of data0) as [deps|e]; [|done].
  destruct Hspec as [-> _]. unfold bind at 1.
  destruct (get_entities remote (document_dependencies data0) st0)
    as [[entities|e] st2] eqn:Hget; [|done].
  unfold ret. intros [= <- <-].
  apply get_entities_ok_cached in Hget.
  assert (Hall : ∀ x, x ∈ document_dependencies data0 → is_Some (cache st2 !! x)).
  { intros x Hx. apply list_elem_of_lookup in Hx as [i Hi].
    destruct (Forall2_lookup_l _ _ _ _ _ Hget Hi) as (e & _ & He). by eexists. }
  split; [done|]. unfold claims. by apply claims_loop_offline.
Qed.

End Offline.

Lemma deep_load_makes_claims_offline_witness :
  ∃ data st1 r,
    Entity couple "Q100" true empty_state = (Ok data, st1) ∧
    claims couple data st1 = (r, st1) ∧
    claims flaky_remote data st1 = (r, st1).
Proof.
  destruct (Entity couple "Q100" true empty_state) as [[data|e] st1] eqn:Hrun.
  - destruct (deep_load_makes_claims_offline couple flaky_remote
                "Q100" empty_state data st1 Hrun) as (_ & r & H1 & H2).
    exists data, st1, r. split; [reflexivity|]. split; [exact H1 | exact H2].
  - exfalso. vm_compute in Hrun. discriminate Hrun.
Defined.

Lemma parse_snak_item_labels_witness :
  ∃ st, fst (get_entities wikidata ["P31"; "Q5"] empty_state) = Ok [labelled "P31" "instance of" []; labelled "Q5" "human" []] ∧
    st = snd (get_entities wikidata ["P31"; "Q5"] empty_state) ∧
    parse_snak flaky_remote instance_of_human st
    = (Ok (Some (PStr "instance of", PStr "human")), st).
Proof.
  exists (snd (get_entities wikidata ["P31"; "Q5"] empty_state)).
  split; [vm_compute; reflexivity|]. split; [reflexivity|].
  apply (parse_snak_item_labels flaky_remote instance_of_human _
           (labelled "P31" "instance of" []) "Q5" (labelled "Q5" "human" [])).
  - apply (bool_decide_unpack _). vm_compute. exact I.
  - reflexivity.
  - vm_compute. reflexivity.
  - reflexivity.
  - vm_compute. reflexivity.
Defined.

(** * Further properties of the claims accessor *)

Section AccessorFacts.

Variable remote : list string → option (list EntityDoc).

Lemma renders_without_order claim t :
  qualifiers_order claim = None → renders remote claim t → ∃ p v, t = Pair p v.
Proof.
  intros Hnone (p & v & snaks & qs & st0 & st1 & st2 & _ & Hq & _ & _ & ->).
  rewrite Hnone in Hq. simpl in Hq. unfold ret in Hq. injection Hq as <- _.
  eauto.
Qed.

(** X13: for a document whose statements have no "qualifiers-order", the
    accessor yields two-component tuples only, whatever the "qualifiers"
    of the statements hold. *)
Theorem claims_without_order_yields_pairs data st out st' :
  (∀ claim, claim ∈ concat (dict_values (e_claims data)) →
            qualifiers_order claim = None) →
  claims remote data st = (Ok out, st') →
  Forall (λ t, ∃ p v, t = Pair p v) out.
Proof.
  intros Hnone. unfold claims. intros (new & -> & HF)%claims_loop_ok. simpl.
  assert (Hcl : Forall (λ claim, qualifiers_order claim = None)
                  (filter (λ c, displayable (mainsnak c))
                     (concat (dict_values (e_claims data))))).
  { apply Forall_forall. intros claim [_ Hin]%list_elem_of_filter. by apply Hnone. }
  induction HF as [|claim t cl out Hr _ IH]; [constructor|].
  apply Forall_cons in Hcl as [Hc Hcl].
  constructor; [by eapply renders_without_order | by apply IH].
Qed.

Lemma claims_qualifier_ids_app claim pre rest acc st :
  claims_qualifier_ids remote claim (pre ++ rest) acc st
  = match claims_qualifier_ids remote claim pre acc st with
    | (Ok acc', st') => claims_qualifier_ids remote claim rest acc' st'
    | (Err e, st') => (Err e, st')
    end.
Proof.
  revert acc st. induction pre as [|qid pre IH]; intros acc st; [done|].
  cbn [app claims_qualifier_ids].
  destruct (qualifiers claim) as [d|]; [|done].
  destruct (dict_get d qid) as [snaks|]; [|done].
  unfold bind.
  destruct (claims_snaks remote snaks acc st) as [[acc'|e] st']; [apply IH|done].
Qed.

(** X14: when the "qualifiers-order" of a statement whose mainsnak is kept
    names a property that its "qualifiers" lack (or when it has no
    "qualifiers" at all), the accessor fails at that statement and yields
    none of the later statements: it normalizes the mainsnak, then the
    qualifier snaks of the properties named before the lacking one, and
    raises the key error in the state that these left; if one of these
    normalizations fails, its error is raised instead. *)
Theorem claims_order_names_missing_qualifier
    claim later yielded st t st1 pre qid rest :
  parse_snak remote (mainsnak claim) st = (Ok (Some t), st1) →
  qualifiers_order claim = Some (pre ++ qid :: rest) →
  (qualifiers claim ≫= λ d, dict_get d qid) = None →
  claims_loop remote (claim :: later) yielded st
  = match claims_qualifier_ids remote claim pre [] st1 with
    | (Ok _, st2) =>
        (Err (KeyError (match qualifiers claim with
                        | Some _ => qid
                        | None => "qualifiers"
                        end)), st2)
    | (Err e, st2) => (Err e, st2)
    end.
Proof.
  intros Hp Horder Hmiss. cbn [claims_loop].
  unfold bind at 1, claims_claim, bind at 1. rewrite Hp. destruct t as [p v].
  rewrite Horder. cbn [from_option]. unfold id, bind at 1.
  rewrite claims_qualifier_ids_app.
  destruct (claims_qualifier_ids remote claim pre [] st1) as [[acc|e] st2];
    [|done].
  cbn [claims_qualifier_ids].
  destruct (qualifiers claim) as [d|]; simpl in *; [|done].
  by rewrite Hmiss.
Qed.

(** X15: a run of the accessor that reaches its end yields at most one
    tuple per statement, and the qualifiers of a three-component tuple
    are never empty. *)
Theorem claims_tuples_shape data st out st' :
  claims remote data st = (Ok out, st') →
  length out ≤ length (concat (dict_values (e_claims data))) ∧
  ∀ p v qs, Triple p v qs ∈ out → qs ≠ [].
Proof.
  unfold claims. intros (new & -> & HF)%claims_loop_ok. simpl. split.
  - rewrite <- (Forall2_length _ _ _ HF). apply length_filter.
  - intros p v qs Hin. apply list_elem_of_lookup in Hin as [i Hi].
    destruct (Forall2_lookup_r _ _ _ _ _ HF Hi) as (claim & _ & Hr).
    destruct Hr as (p' & v' & snaks & qs' & s0 & s1 & s2 & _ & _ & _ & _ & Heq).
    destruct qs' as [|q qs']; [done|]. by injection Heq as -> -> ->.
Qed.

End AccessorFacts.

Lemma claims_without_order_yields_pairs_witness :
  (∀ claim, claim ∈ concat (dict_values (e_claims alice)) →
            qualifiers_order claim = None) ∧
  ∃ out st',
    claims couple alice empty_state = (Ok out, st') ∧
    Forall (λ t, ∃ p v, t = Pair p v) out.
Proof.
  assert (H : ∀ claim, claim ∈ concat (dict_values (e_claims alice)) →
                       qualifiers_order claim = None).
  { intros claim ->%list_elem_of_singleton. reflexivity. }
  split; [exact H|].
  destruct (claims couple alice empty_state) as [[out|e] st'] eqn:Hrun.
  - exists out, st'. split; [reflexivity|].
    exact (claims_without_order_yields_pairs couple alice empty_state out st' H Hrun).
  - exfalso. vm_compute in Hrun. discriminate Hrun.
Defined.

Lemma claims_order_names_missing_qualifier_witness :
  ∃ st1 st2,
    parse_snak wikidata (mainsnak misordered_later) empty_state
      = (Ok (Some (PStr "instance of", PStr "human")), st1) ∧
    claims_qualifier_ids wikidata misordered_later ["P580"] [] st1
      = (Ok [(PStr "start time", PStr "+1947-08-15T00:00:00Z")], st2) ∧
    claims_loop wikidata (misordered_later :: [plain instance_of_human]) []
      empty_state
      = (Err (KeyError "P582"), st2).
Proof.
  destruct (parse_snak wikidata (mainsnak misordered_later) empty_state)
    as [r st1] eqn:Hp.
  assert (r = Ok (Some (PStr "instance of", PStr "human"))) as ->.
  { change r with (fst (r, st1)). rewrite <- Hp. vm_compute. reflexivity. }
  assert (st1 = snd (parse_snak wikidata (mainsnak misordered_later) empty_state))
    as Hst1 by (by rewrite Hp).
  destruct (claims_qualifier_ids wikidata misordered_later ["P580"] [] st1)
    as [q st2] eqn:Hq.
  assert (q = Ok [(PStr "start time", PStr "+1947-08-15T00:00:00Z")]) as ->.
  { change q with (fst (q, st2)). rewrite <- Hq, Hst1. vm_compute. reflexivity. }
  exists st1, st2. split; [reflexivity|]. split; [exact Hq|].
  pose proof (claims_order_names_missing_qualifier wikidata misordered_later
                [plain instance_of_human] [] empty_state _ st1
                ["P580"] "P582" [] Hp eq_refl eq_refl) as H.
  rewrite Hq in H. exact H.
Defined.

(** The two ways in which a statement with a lacking qualifier fails: the
    key error, after the request for the label of the earlier qualifier's
    property, and the error of that request when it is not answered. *)
Example claims_misordered_later :
  fst (claims_loop wikidata [misordered_later] [] empty_state)
  = Err (KeyError "P582") ∧
  requests (snd (claims_loop wikidata [misordered_later] [] empty_state))
  = [["P31"]; ["Q5"]; ["P580"]] ∧
  fst (claims_loop dead_remote [misordered_later] []
         (snd (get_entities wikidata ["P31"; "Q5"] empty_state)))
  = Err (RequestError ["P580"]).
Proof. repeat split; vm_compute; reflexivity. Qed.

Lemma claims_tuples_shape_witness :
  ∃ out st',
    claims wikidata nehru empty_state = (Ok out, st') ∧
    length out ≤ length (concat (dict_values (e_claims nehru))).
Proof.
  destruct (claims wikidata nehru empty_state) as [[out|e] st'] eqn:Hrun.
  - exists out, st'. split; [reflexivity|].
    exact (proj1 (claims_tuples_shape wikidata nehru empty_state out st' Hrun)).
  - exfalso. vm_compute in Hrun. discriminate Hrun.
Defined.
